(** * The graph/JSON converter of draw-io-with-ai

    A shallow embedding of [src/utils/graphDataConverter.ts] (the style
    codec, [cellToJSON], [exportGraphToJSON], [importGraphFromJSON]) and
    of [validateAIResponse] from [src/services/aiService.ts], with the
    properties the specification states about them.

    The embedding follows the TypeScript text.  What the host language
    contributes is kept explicit:
    - strings are sequences of UTF-16 code units;
    - the conversions between strings and numbers ([Number(s)],
      [String(n)], [isNaN]) are an interface, [JSNumber];
    - a style object is an ordinary object: its own properties are kept in
      creation order, [Object.entries] lists array-index keys first, and an
      assignment to [__proto__] creates no property;
    - the widget (mxGraph) is outside the repository: the live model keeps
      what the converter reads and writes through the declared API. *)

From Stdlib Require Import String Ascii List Arith NArith Bool Lia Permutation.
From Stdlib Require DecimalN.
Import ListNotations.
Local Open Scope N_scope.
#[local] Set Warnings "-register-all".

(* ================================================================== *)
(** * Part I: definitions                                              *)
(* ================================================================== *)

(** ** Strings of the host language *)

Module JS.

Definition code_unit := N.

(** A string value: its UTF-16 code units. *)
Definition jsstring := list code_unit.

(** Literals are written as Rocq strings (one byte is one code unit). *)
Definition js (s : string) : jsstring :=
  map N_of_ascii (list_ascii_of_string s).

Fixpoint str_eqb (a b : jsstring) : bool :=
  match a, b with
  | [], [] => true
  | x :: a', y :: b' => (x =? y) && str_eqb a' b'
  | _, _ => false
  end.

(** Truthiness of a string: the empty string is the only falsy one. *)
Definition truthy_str (s : jsstring) : bool :=
  match s with [] => false | _ :: _ => true end.

(** [s.split(sep)] for a one-character separator.  The result is never
    empty: [''.split(';')] is [['']]. *)
Fixpoint split (sep : code_unit) (s : jsstring) : list jsstring :=
  match s with
  | [] => [[]]
  | c :: r =>
      if c =? sep then [] :: split sep r
      else match split sep r with
           | h :: t => (c :: h) :: t
           | [] => [[c]]
           end
  end.

(** [parts.join(sep)]. *)
Fixpoint join (sep : jsstring) (parts : list jsstring) : jsstring :=
  match parts with
  | [] => []
  | p :: rest =>
      match rest with
      | [] => p
      | _ :: _ => p ++ sep ++ join sep rest
      end
  end.

(** WhiteSpace and LineTerminator code units, the ones [trim] removes. *)
Definition white_space_units : list code_unit :=
  [9; 10; 11; 12; 13; 32; 160; 5760;
   8192; 8193; 8194; 8195; 8196; 8197; 8198; 8199; 8200; 8201; 8202;
   8232; 8233; 8239; 8287; 12288; 65279].

Definition is_white_space (c : code_unit) : bool :=
  existsb (N.eqb c) white_space_units.

Fixpoint trimStart (s : jsstring) : jsstring :=
  match s with
  | [] => []
  | c :: r => if is_white_space c then trimStart r else s
  end.

(** [s.trim()]. *)
Definition trim (s : jsstring) : jsstring :=
  rev (trimStart (rev (trimStart s))).

Definition semicolon : code_unit := 59.
Definition equals_sign : code_unit := 61.

(** ** Numbers of the host language

    [Number(s)], [isNaN(n)], [String(n)], the constant [0] and the
    truthiness of a number are taken from the language.  Numbers are
    compared as [===] does. *)

Class JSNumber := {
  num : Type;
  Number : jsstring -> num;
  isNaN : num -> bool;
  num_to_string : num -> jsstring;
  num_zero : num;
  num_truthy : num -> bool
}.

(** Code units that occur in [String(n)] for a number [n] other than NaN:
    digits, sign, point, exponent mark and the letters of [Infinity]. *)
Definition number_units : list code_unit :=
  [48; 49; 50; 51; 52; 53; 54; 55; 56; 57;
   43; 45; 46; 101; 73; 110; 102; 105; 116; 121].

Definition is_number_unit (c : code_unit) : bool :=
  existsb (N.eqb c) number_units.

(** What the codec relies on: [String] of a number reads back as that
    number, is written with [number_units] only, and the empty string
    converts to a number ([Number('')] is [0]). *)
Class JSNumberLaws (J : JSNumber) := {
  Number_empty : isNaN (Number []) = false;
  num_to_string_units :
    forall n, isNaN n = false ->
      num_to_string n <> [] /\ forallb is_number_unit (num_to_string n) = true;
  Number_num_to_string :
    forall n, isNaN n = false -> Number (num_to_string n) = n
}.

(** *** The conversions on decimal integer literals

    A reference implementation of [JSNumber] for the strings that are
    sequences of decimal digits (after trimming; the empty string is [0]).
    Every other string converts to NaN here. *)

Fixpoint uint_units (d : Decimal.uint) : jsstring :=
  match d with
  | Decimal.Nil => []
  | Decimal.D0 d => 48 :: uint_units d
  | Decimal.D1 d => 49 :: uint_units d
  | Decimal.D2 d => 50 :: uint_units d
  | Decimal.D3 d => 51 :: uint_units d
  | Decimal.D4 d => 52 :: uint_units d
  | Decimal.D5 d => 53 :: uint_units d
  | Decimal.D6 d => 54 :: uint_units d
  | Decimal.D7 d => 55 :: uint_units d
  | Decimal.D8 d => 56 :: uint_units d
  | Decimal.D9 d => 57 :: uint_units d
  end.

Definition digit_uint (c : code_unit) (d : Decimal.uint) : option Decimal.uint :=
  match c with
  | 48 => Some (Decimal.D0 d)
  | 49 => Some (Decimal.D1 d)
  | 50 => Some (Decimal.D2 d)
  | 51 => Some (Decimal.D3 d)
  | 52 => Some (Decimal.D4 d)
  | 53 => Some (Decimal.D5 d)
  | 54 => Some (Decimal.D6 d)
  | 55 => Some (Decimal.D7 d)
  | 56 => Some (Decimal.D8 d)
  | 57 => Some (Decimal.D9 d)
  | _ => None
  end.

Fixpoint units_uint (s : jsstring) : option Decimal.uint :=
  match s with
  | [] => Some Decimal.Nil
  | c :: r =>
      match units_uint r with
      | Some d => digit_uint c d
      | None => None
      end
  end.

(** [None] is NaN. *)
Definition int_Number (s : jsstring) : option N :=
  match units_uint (trim s) with
  | Some d => Some (N.of_uint d)
  | None => None
  end.

Definition int_num_to_string (n : option N) : jsstring :=
  match n with
  | Some n => uint_units (N.to_uint n)
  | None => js "NaN"
  end.

#[export] Instance IntegerNumber : JSNumber := {
  num := option N;
  Number := int_Number;
  isNaN := fun n => match n with None => true | Some _ => false end;
  num_to_string := int_num_to_string;
  num_zero := Some 0;
  num_truthy := fun n => match n with Some (Npos _) => true | _ => false end
}.

End JS.

Import JS.

(** ** Values and ordinary objects *)

Section Values.
Context {J : JSNumber}.

(** The values a style mapping holds: the scalars of the data model, and
    [undefined] and [null], which [formatStyle] tests for. *)
Inductive style_value :=
| VUndefined
| VNull
| VBool (b : bool)
| VNum (n : num)
| VStr (s : jsstring).

(** [String(v)]. *)
Definition to_String (v : style_value) : jsstring :=
  match v with
  | VUndefined => js "undefined"
  | VNull => js "null"
  | VBool true => js "true"
  | VBool false => js "false"
  | VNum n => num_to_string n
  | VStr s => s
  end.

(** [v !== undefined && v !== null]. *)
Definition defined (v : style_value) : bool :=
  match v with
  | VUndefined | VNull => false
  | _ => true
  end.

(** An ordinary object ([{}]): its own properties in creation order. *)
Definition obj := list (jsstring * style_value).

Definition has_key (k : jsstring) (o : obj) : bool :=
  existsb (fun e => str_eqb k (fst e)) o.

Fixpoint replace (k : jsstring) (v : style_value) (o : obj) : obj :=
  match o with
  | [] => []
  | e :: r =>
      if str_eqb k (fst e) then (fst e, v) :: r else e :: replace k v r
  end.

(** [o[k] = v].  The name [__proto__] is an accessor inherited from
    [Object.prototype]: assigning to it creates no own property (a
    primitive is ignored, [null] only changes the prototype).  An
    existing property keeps its place; a new one is created last. *)
Definition obj_set (o : obj) (k : jsstring) (v : style_value) : obj :=
  if str_eqb k (js "__proto__") then o
  else if has_key k o then replace k v o
  else o ++ [(k, v)].

(** A property name is an array index when it is the canonical decimal
    form of an integer below [2^32 - 1]. *)
Definition digit_val (c : code_unit) : option N :=
  if (48 <=? c) && (c <=? 57) then Some (c - 48) else None.

Fixpoint digits_val (acc : N) (s : jsstring) : option N :=
  match s with
  | [] => Some acc
  | c :: r =>
      match digit_val c with
      | Some d => digits_val (10 * acc + d) r
      | None => None
      end
  end.

Definition array_index (s : jsstring) : option N :=
  match s with
  | [] => None
  | c :: r =>
      if (c =? 48) && truthy_str r then None
      else match digits_val 0 s with
           | Some n => if n <? 4294967295 then Some n else None
           | None => None
           end
  end.

Fixpoint insert_index (i : N) (e : jsstring * style_value)
    (l : list (N * (jsstring * style_value))) : list (N * (jsstring * style_value)) :=
  match l with
  | [] => [(i, e)]
  | (j, e') :: r =>
      if i <=? j then (i, e) :: l else (j, e') :: insert_index i e r
  end.

(** The array-index properties, in ascending order of index. *)
Fixpoint index_props (o : obj) : list (N * (jsstring * style_value)) :=
  match o with
  | [] => []
  | e :: r =>
      match array_index (fst e) with
      | Some i => insert_index i e (index_props r)
      | None => index_props r
      end
  end.

(** The other properties, in creation order. *)
Definition named_props (o : obj) : obj :=
  filter (fun e => match array_index (fst e) with
                   | Some _ => false
                   | None => true
                   end) o.

(** [Object.entries(o)]: array indices ascending, then the other names
    in creation order. *)
Definition entries (o : obj) : list (jsstring * style_value) :=
  map snd (index_props o) ++ named_props o.

(** ** The style codec *)

(** [parseStyleValue], lines 145-150. *)
Definition parseStyleValue (value : jsstring) : style_value :=
  if str_eqb value (js "true") then VBool true
  else if str_eqb value (js "false") then VBool false
  else if negb (isNaN (Number value)) then VNum (Number value)
  else VStr value.

(** The body of the [forEach] in [parseStyle], lines 133-136:
    [const [key, value] = part.split('=')] takes the first two fields of
    the split and leaves the others. *)
Definition parse_part (style : obj) (part : jsstring) : obj :=
  match split equals_sign part with
  | key :: value :: _ =>
      if truthy_str key && truthy_str value
      then obj_set style (trim key) (parseStyleValue (trim value))
      else style
  | _ => style
  end.

(** [parseStyle], lines 126-140. *)
Definition parseStyle (styleStr : jsstring) : obj :=
  if negb (truthy_str styleStr) then []
  else fold_left parse_part (split semicolon styleStr) [].

(** The body of the [forEach] in [formatStyle], lines 254-259. *)
Definition format_entry (parts : list jsstring) (e : jsstring * style_value)
    : list jsstring :=
  let (key, value) := e in
  if defined value
  then parts ++ [key ++ js "=" ++ to_String value]
  else parts.

(** [formatStyle], lines 251-262. *)
Definition formatStyle (style : obj) : jsstring :=
  join (js ";") (fold_left format_entry (entries style) []).

End Values.

(** ** The Document and the live model *)

Section Converter.
Context {J : JSNumber}.

Inductive cell_type := vertex | edge.

(** [GeometryData]; the widget's geometry record has the same fields. *)
Record GeometryData := {
  x : num;
  y : num;
  width : num;
  height : num
}.

Record GraphCell := {
  id : jsstring;
  type : cell_type;
  value : jsstring;
  geometry : GeometryData;
  style : obj;
  source : option jsstring;
  target : option jsstring;
  parent : option jsstring
}.

Record Viewport := {
  scale : num;
  translate : num * num
}.

Record GraphData := {
  cells : list GraphCell;
  viewport : option Viewport
}.

(** The identity of a live cell object. *)
Definition handle := nat.

(** An object reference the converter can hold: a cell of the widget, or
    a value that is no cell and offers no accessor (a built-in function,
    [Object.prototype]), named by the member it was read from. *)
Inductive jsref :=
| RCell (h : handle)
| RForeign (k : jsstring).

(** A live cell, as its accessors present it ([None] is [null]). *)
Record mxCell := {
  getId : option jsstring;
  getValue : option jsstring;
  getGeometry : option GeometryData;
  getStyle : option jsstring;
  getParent : option handle;
  getSource : option jsref;
  getTarget : option jsref;
  isEdge : bool;
  isVertex : bool
}.

(** Modelled from the spec: the widget (mxGraph) is not part of the
    repository, only the declaration of its API is.  Following sections
    4.1 and 4.2, the cells that import creates under the default parent
    are the root-level children that export reads and that clearing
    removes; ids are stored as they are given.  [cell_member c k] is the
    truthy member [k] of the cell object [c], if there is one, for the
    names that the API declaration does not list: the converter reaches
    it only through a replaced prototype. *)
Record mxGraph := {
  root : handle;
  root_id : option jsstring;
  children : list (handle * mxCell);
  next_handle : handle;
  cell_member : handle -> jsstring -> option jsref;
  view_scale : num;
  view_translate : num * num;
  update_level : nat
}.

Definition with_children (g : mxGraph) (cs : list (handle * mxCell))
    (next : handle) : mxGraph :=
  {| root := root g; root_id := root_id g; children := cs;
     next_handle := next; cell_member := cell_member g;
     view_scale := view_scale g; view_translate := view_translate g;
     update_level := update_level g |}.

(** [model.beginUpdate()] and [model.endUpdate()]. *)
Definition beginUpdate (g : mxGraph) : mxGraph :=
  {| root := root g; root_id := root_id g; children := children g;
     next_handle := next_handle g; cell_member := cell_member g;
     view_scale := view_scale g; view_translate := view_translate g;
     update_level := S (update_level g) |}.

Definition endUpdate (g : mxGraph) : mxGraph :=
  {| root := root g; root_id := root_id g; children := children g;
     next_handle := next_handle g; cell_member := cell_member g;
     view_scale := view_scale g; view_translate := view_translate g;
     update_level := pred (update_level g) |}.

(** [graph.getView().setScale(s)] and [setTranslate(tx, ty)]. *)
Definition setScale (g : mxGraph) (s : num) : mxGraph :=
  {| root := root g; root_id := root_id g; children := children g;
     next_handle := next_handle g; cell_member := cell_member g;
     view_scale := s; view_translate := view_translate g;
     update_level := update_level g |}.

Definition setTranslate (g : mxGraph) (tx ty : num) : mxGraph :=
  {| root := root g; root_id := root_id g; children := children g;
     next_handle := next_handle g; cell_member := cell_member g;
     view_scale := view_scale g; view_translate := (tx, ty);
     update_level := update_level g |}.

(** [graph.getDefaultParent()]. *)
Definition getDefaultParent (g : mxGraph) : handle := root g.

(** [graph.removeCells(cells)]. *)
Definition graph_removeCells (g : mxGraph) (hs : list handle) : mxGraph :=
  with_children g
    (filter (fun c => negb (existsb (Nat.eqb (fst c)) hs)) (children g))
    (next_handle g).

(** The cell [graph.insertVertex] creates. *)
Definition vertex_cell (parent : handle) (id value : jsstring)
    (x y width height : num) (style : jsstring) : mxCell :=
  {| getId := Some id; getValue := Some value;
     getGeometry := Some {| x := x; y := y; width := width; height := height |};
     getStyle := Some style; getParent := Some parent;
     getSource := None; getTarget := None;
     isEdge := false; isVertex := true |}.

(** The cell [graph.insertEdge] creates; the widget gives it an empty
    geometry. *)
Definition edge_cell (parent : handle) (id value : jsstring)
    (source target : jsref) (style : jsstring) : mxCell :=
  {| getId := Some id; getValue := Some value;
     getGeometry := Some {| x := num_zero; y := num_zero;
                            width := num_zero; height := num_zero |};
     getStyle := Some style; getParent := Some parent;
     getSource := Some source; getTarget := Some target;
     isEdge := true; isVertex := false |}.

(** [graph.insertVertex(parent, id, value, x, y, width, height, style)]:
    a new vertex under [parent]; its handle is returned. *)
Definition graph_insertVertex (g : mxGraph) (parent : handle)
    (id value : jsstring) (x y width height : num) (style : jsstring)
    : mxGraph * handle :=
  (with_children g
     (children g
        ++ [(next_handle g, vertex_cell parent id value x y width height style)])
     (S (next_handle g)),
   next_handle g).

(** [graph.insertEdge(parent, id, value, source, target, style)]: a new
    edge under [parent] between the two terminals.  The terminals are
    recorded as they are passed; what the widget does with a terminal
    that is not a cell is not part of the model. *)
Definition graph_insertEdge (g : mxGraph) (parent : handle)
    (id value : jsstring) (source target : jsref) (style : jsstring)
    : mxGraph * handle :=
  (with_children g
     (children g
        ++ [(next_handle g, edge_cell parent id value source target style)])
     (S (next_handle g)),
   next_handle g).

(** The id of the cell behind a handle: [cell.getId()]. *)
Definition id_of_handle (g : mxGraph) (h : handle) : option jsstring :=
  if Nat.eqb h (root g) then root_id g
  else match find (fun c => Nat.eqb h (fst c)) (children g) with
       | Some c => getId (snd c)
       | None => None
       end.

(** ** Export *)

(** [s || ''] on an optional string. *)
Definition or_empty (s : option jsstring) : jsstring :=
  match s with Some s => s | None => [] end.

(** [s || undefined] on an optional string. *)
Definition or_undefined (s : option jsstring) : option jsstring :=
  match s with
  | Some s => if truthy_str s then Some s else None
  | None => None
  end.

(** [n || 0]. *)
Definition or_zero (n : num) : num :=
  if num_truthy n then n else num_zero.

(** [r?.getId?.()] on a reference. *)
Definition ref_id (g : mxGraph) (r : option jsref) : option jsstring :=
  match r with
  | Some (RCell h) => id_of_handle g h
  | _ => None
  end.

(** [cellToJSON], lines 85-121. *)
Definition cellToJSON (g : mxGraph) (cell : option mxCell)
    : option GraphCell :=
  match cell with
  | None => None
  | Some cell =>
      if negb (isEdge cell) && negb (isVertex cell) then None
      else
        Some {|
          id := or_empty (getId cell);
          type := if isEdge cell then edge else vertex;
          value := or_empty (getValue cell);
          geometry :=
            match getGeometry cell with
            | Some geometry =>
                {| x := or_zero (x geometry);
                   y := or_zero (y geometry);
                   width := or_zero (width geometry);
                   height := or_zero (height geometry) |}
            | None =>
                {| x := num_zero; y := num_zero;
                   width := num_zero; height := num_zero |}
            end;
          style := parseStyle (or_empty (getStyle cell));
          source :=
            if isEdge cell then or_undefined (ref_id g (getSource cell))
            else None;
          target :=
            if isEdge cell then or_undefined (ref_id g (getTarget cell))
            else None;
          parent :=
            or_undefined
              (match getParent cell with
               | Some p => id_of_handle g p
               | None => None
               end)
        |}
  end.

(** [exportGraphToJSON], lines 53-80. *)
Definition exportGraphToJSON (g : mxGraph) : GraphData :=
  {| cells :=
       fold_left
         (fun cells cell =>
            match cellToJSON g (Some (snd cell)) with
            | Some graphCell => cells ++ [graphCell]
            | None => cells
            end)
         (children g) [];
     viewport :=
       Some {| scale := view_scale g; translate := view_translate g |} |}.

(** ** Import *)

(** [idMap], an ordinary object used as a map from ids to cells.  Its
    own properties are the ids assigned in pass 1; assigning under the
    name [__proto__] replaces its prototype by the cell instead. *)
Record IdMap := {
  own : list (jsstring * handle);
  proto : option handle
}.

Definition idMap_empty : IdMap := {| own := []; proto := None |}.

(** [idMap[k] = cell]. *)
Definition idMap_set (m : IdMap) (k : jsstring) (cell : handle) : IdMap :=
  if str_eqb k (js "__proto__")
  then {| own := own m; proto := Some cell |}
  else {| own := (k, cell) :: own m; proto := proto m |}.

(** The members every ordinary object inherits from [Object.prototype]
    ([__proto__] apart); all of them are functions. *)
Definition object_prototype_members : list jsstring :=
  map js ["constructor"; "hasOwnProperty"; "isPrototypeOf";
          "propertyIsEnumerable"; "toLocaleString"; "toString"; "valueOf";
          "__defineGetter__"; "__defineSetter__";
          "__lookupGetter__"; "__lookupSetter__"]%string.

(** The methods the API declaration gives every cell ([class mxCell]). *)
Definition mxCell_methods : list jsstring :=
  map js ["getId"; "getValue"; "getGeometry"; "getStyle"; "getParent";
          "getSource"; "getTarget"; "isEdge"; "isVertex"]%string.

(** [idMap[k]], when it is truthy: an own property, or else a member
    found along the prototype chain, which is [Object.prototype] or, once
    replaced, a cell.  [None] stands for [undefined] and for any other
    falsy member. *)
Definition idMap_get (g : mxGraph) (m : IdMap) (k : jsstring)
    : option jsref :=
  match find (fun e => str_eqb k (fst e)) (own m) with
  | Some e => Some (RCell (snd e))
  | None =>
      match proto m with
      | None =>
          if str_eqb k (js "__proto__")
             || existsb (str_eqb k) object_prototype_members
          then Some (RForeign k)
          else None
      | Some c =>
          if str_eqb k (js "__proto__") then Some (RCell c)
          else if existsb (str_eqb k) (mxCell_methods ++ object_prototype_members)
          then Some (RForeign k)
          else cell_member g c k
      end
  end.

(** [insertVertex], lines 207-224. *)
Definition insertVertex (graph : mxGraph) (cellData : GraphCell)
    (parent : handle) : mxGraph * handle :=
  let styleStr := formatStyle (style cellData) in
  graph_insertVertex graph parent (id cellData) (value cellData)
    (x (geometry cellData)) (y (geometry cellData))
    (width (geometry cellData)) (height (geometry cellData)) styleStr.

(** [insertEdge], lines 229-246. *)
Definition insertEdge (graph : mxGraph) (cellData : GraphCell)
    (parent : handle) (source target : jsref) : mxGraph * handle :=
  let styleStr := formatStyle (style cellData) in
  graph_insertEdge graph parent (id cellData) (value cellData)
    source target styleStr.

(** Pass 1, the body of the first [forEach], lines 176-181. *)
Definition import_vertex (parent : handle) (st : mxGraph * IdMap)
    (cellData : GraphCell) : mxGraph * IdMap :=
  match type cellData with
  | vertex =>
      let (graph, cell) := insertVertex (fst st) cellData parent in
      (graph, idMap_set (snd st) (id cellData) cell)
  | edge => st
  end.

(** [cellData.source && cellData.target]: both present and not empty. *)
Definition truthy_opt (s : option jsstring) : bool :=
  match s with Some s => truthy_str s | None => false end.

(** The terminals pass 2 connects an element to, if it creates an edge
    for it: the tests of lines 185 and 188. *)
Definition edge_terminals (graph : mxGraph) (idMap : IdMap)
    (cellData : GraphCell) : option (jsref * jsref) :=
  match type cellData with
  | edge =>
      if truthy_opt (source cellData) && truthy_opt (target cellData)
      then
        match idMap_get graph idMap (or_empty (source cellData)),
              idMap_get graph idMap (or_empty (target cellData)) with
        | Some source, Some target => Some (source, target)
        | _, _ => None
        end
      else None
  | vertex => None
  end.

(** Pass 2, the body of the second [forEach], lines 184-192. *)
Definition import_edge (parent : handle) (idMap : IdMap) (graph : mxGraph)
    (cellData : GraphCell) : mxGraph :=
  match edge_terminals graph idMap cellData with
  | Some (source, target) =>
      fst (insertEdge graph cellData parent source target)
  | None => graph
  end.

(** [importGraphFromJSON], lines 155-202. *)
Definition importGraphFromJSON (graph : mxGraph) (data : GraphData)
    (clearExisting : bool) : mxGraph :=
  let g := beginUpdate graph in
  let g :=
    if clearExisting
    then graph_removeCells g (map fst (children g))
    else g in
  let parent := getDefaultParent g in
  let (g, idMap) :=
    fold_left (import_vertex parent) (cells data) (g, idMap_empty) in
  let g := fold_left (import_edge parent idMap) (cells data) g in
  let g :=
    match viewport data with
    | Some vp =>
        setTranslate (setScale g (scale vp))
          (fst (translate vp)) (snd (translate vp))
    | None => g
    end in
  endUpdate g.

End Converter.

(** ** Validation of an AI response *)

Section AIService.
Context {J : JSNumber}.

(** A response as it arrives (parsed JSON, or anything else a caller
    passes for [any]). *)
Inductive jsval :=
| JUndefined
| JNull
| JBool (b : bool)
| JNum (n : num)
| JStr (s : jsstring)
| JArray (items : list jsval)
| JObject (props : list (jsstring * jsval)).

(** ToBoolean. *)
Definition truthy (v : jsval) : bool :=
  match v with
  | JUndefined | JNull => false
  | JBool b => b
  | JNum n => num_truthy n
  | JStr s => truthy_str s
  | JArray _ | JObject _ => true
  end.

(** [v.k] for the three names the validation reads ([diagram], [cells],
    [description]): an own property of an object, [undefined] on every
    other value that is not [null] or [undefined] (no prototype has a
    member of these names). *)
Definition get_prop (v : jsval) (k : jsstring) : jsval :=
  match v with
  | JObject props =>
      match find (fun e => str_eqb k (fst e)) props with
      | Some e => snd e
      | None => JUndefined
      end
  | _ => JUndefined
  end.

(** [Array.isArray(v)]. *)
Definition is_array (v : jsval) : bool :=
  match v with JArray _ => true | _ => false end.

(** [typeof v === 'string']. *)
Definition is_string (v : jsval) : bool :=
  match v with JStr _ => true | _ => false end.

(** [validateAIResponse], lines 75-82: the value of the [&&] chain, the
    first falsy operand or else the last one. *)
Definition validateAIResponse (response : jsval) : jsval :=
  if negb (truthy response) then response
  else
    let diagram := get_prop response (js "diagram") in
    if negb (truthy diagram) then diagram
    else if negb (is_array (get_prop diagram (js "cells"))) then JBool false
    else JBool (is_string (get_prop response (js "description"))).

End AIService.


(** ** The callers: the canvas methods and the mock AI service *)

Section Callers.
Context {J : JSNumber}.

(** [getGraphData] of the canvas ([DrawingCanvas.tsx], lines 98-101);
    [graphRef.current] is [None] before the widget is created. *)
Definition getGraphData (graphRef : option mxGraph) : GraphData :=
  match graphRef with
  | None => {| cells := []; viewport := None |}
  | Some graph => exportGraphToJSON graph
  end.

(** [importGraphData], lines 103-106. *)
Definition importGraphData (graphRef : option mxGraph) (data : GraphData)
    : option mxGraph :=
  match graphRef with
  | None => None
  | Some graph => Some (importGraphFromJSON graph data true)
  end.

(** [clear], lines 108-119. *)
Definition clear (graphRef : option mxGraph) : option mxGraph :=
  match graphRef with
  | None => None
  | Some graph =>
      let g := beginUpdate graph in
      let g := graph_removeCells g (map fst (children g)) in
      Some (endUpdate g)
  end.

(** [callAIService] ([aiService.ts], lines 24-39): the value its promise
    resolves with; the delay of one second is not part of the model.
    The timer callback reads [request.diagram], which throws when the
    request is [null] or [undefined]: the promise is then never settled
    ([None]).  The two texts are given by their code units. *)
Definition callAIService_description : jsstring :=
  [65; 73; 22788; 29702; 20102; 24744; 30340; 22270; 34920; 12290;
   36825; 26159; 19968; 20010; 28436; 31034; 21709; 24212; 12290]%N.

Definition callAIService_modifications : list jsstring :=
  [[33258; 21160; 23545; 40784; 20102; 22270; 34920];
   [20248; 21270; 20102; 36830; 25509; 32447; 26679; 24335]]%N.

Definition callAIService (request : jsval) : option jsval :=
  match request with
  | JUndefined | JNull => None
  | _ =>
      Some (JObject
              [(js "diagram", get_prop request (js "diagram"));
               (js "description", JStr callAIService_description);
               (js "modifications",
                JArray (map JStr callAIService_modifications))])
  end.

End Callers.
(** ** Vocabulary of the statements *)

(** The code unit [c] does not occur in [s]. *)
Definition no_unit (c : code_unit) (s : jsstring) : bool :=
  forallb (fun d => negb (d =? c)) s.

(** No [;] and no [=]. *)
Definition plain (s : jsstring) : bool :=
  no_unit semicolon s && no_unit equals_sign s.

(** No white space at either end. *)
Definition trimmed (s : jsstring) : bool :=
  str_eqb (trim s) s.

Section Vocabulary.
Context {J : JSNumber}.

Definition keys (o : obj) : list jsstring := map fst o.

(** The segment [formatStyle] writes for an entry. *)
Definition segment (e : jsstring * style_value) : jsstring :=
  fst e ++ js "=" ++ to_String (snd e).

Definition is_vertex (c : GraphCell) : bool :=
  match type c with vertex => true | edge => false end.

Definition is_edge (c : GraphCell) : bool :=
  match type c with edge => true | vertex => false end.

(** A value that [formatStyle] writes and [parseStyle] reads back. *)
Definition roundtrips (v : style_value) : Prop :=
  defined v = true /\ to_String v <> [] /\ plain (to_String v) = true /\
  trim (to_String v) = to_String v /\ parseStyleValue (to_String v) = v.

(** A name that [parseStyle] stores as it is. *)
Definition clean_key (k : jsstring) : Prop :=
  plain k = true /\ trim k = k /\ k <> js "__proto__".

Definition codec_entry (e : jsstring * style_value) : Prop :=
  clean_key (fst e) /\ roundtrips (snd e).

(** Cells numbered with consecutive handles from [n] on. *)
Definition numbered {A : Type} (n : handle) (l : list A) : list (handle * A) :=
  combine (seq n (length l)) l.

(** The live vertex that pass 1 creates for an element. *)
Definition vertex_of (parent : handle) (cellData : GraphCell) : mxCell :=
  vertex_cell parent (id cellData) (value cellData)
    (x (geometry cellData)) (y (geometry cellData))
    (width (geometry cellData)) (height (geometry cellData))
    (formatStyle (style cellData)).

(** The live edge that pass 2 creates for an element. *)
Definition edge_of (parent : handle) (cellData : GraphCell)
    (source target : jsref) : mxCell :=
  edge_cell parent (id cellData) (value cellData) source target
    (formatStyle (style cellData)).

(** [idMap] at the end of pass 1, when the first new handle is [n]. *)
Definition pass1_idMap (n : handle) (cells : list GraphCell) : IdMap :=
  fold_left (fun m hc => idMap_set m (id (snd hc)) (fst hc))
    (numbered n (filter is_vertex cells)) idMap_empty.

(** The edges that pass 2 creates, in the order of the elements. *)
Definition created_edges (g : mxGraph) (idMap : IdMap) (parent : handle)
    (cells : list GraphCell) : list mxCell :=
  flat_map
    (fun cellData =>
       match edge_terminals g idMap cellData with
       | Some (source, target) => [edge_of parent cellData source target]
       | None => []
       end) cells.

(** The cell an id is bound to in [idMap]: the own property of that
    name, or the prototype for the name [__proto__]. *)
Definition idMap_cell (m : IdMap) (k : jsstring) : option handle :=
  if str_eqb k (js "__proto__") then proto m
  else match find (fun e => str_eqb k (fst e)) (own m) with
       | Some e => Some (snd e)
       | None => None
       end.

Definition idMap_wf (m : IdMap) : Prop :=
  forall e, In e (own m) -> fst e <> js "__proto__".

(** Sample elements: vertices and an edge with empty style. *)
Definition zero_geometry : GeometryData :=
  {| x := num_zero; y := num_zero; width := num_zero; height := num_zero |}.

Definition vertex_at (i : jsstring) : GraphCell :=
  {| id := i; type := vertex; value := []; geometry := zero_geometry;
     style := []; source := None; target := None; parent := None |}.

Definition labelled_vertex (i label : jsstring) : GraphCell :=
  {| id := i; type := vertex; value := label; geometry := zero_geometry;
     style := []; source := None; target := None; parent := None |}.

Definition edge_between (i s t : jsstring) : GraphCell :=
  {| id := i; type := edge; value := []; geometry := zero_geometry;
     style := []; source := Some s; target := Some t; parent := None |}.

(** A name that every ordinary object answers to without owning it. *)
Definition inherited_name (k : jsstring) : bool :=
  str_eqb k (js "__proto__") || existsb (str_eqb k) object_prototype_members.

(** Sample live models: an empty one, and one that holds a single vertex
    with a given id. *)
Definition empty_model : mxGraph :=
  {| root := 0%nat; root_id := Some (js "0"); children := [];
     next_handle := 1%nat; cell_member := fun _ _ => None;
     view_scale := Number (js "1"); view_translate := (num_zero, num_zero);
     update_level := 0%nat |}.

Definition model_with_vertex (i : jsstring) : mxGraph :=
  fst (insertVertex empty_model (vertex_at i) (root empty_model)).

(** A sample Document that lists an edge before its two vertices. *)
Definition edge_first_document : GraphData :=
  {| cells := [edge_between (js "e1") (js "a") (js "b");
               vertex_at (js "a"); vertex_at (js "b")];
     viewport := None |}.

(** A live model whose cells have distinct handles, all of them older
    than the next one. *)
Definition model_wf (g : mxGraph) : Prop :=
  NoDup (map fst (children g)) /\
  forall h, In h (map fst (children g)) -> (h < next_handle g)%nat.

(** Index properties in ascending order, each under its own index. *)
Inductive ascending : list (N * (jsstring * style_value)) -> Prop :=
| asc_nil : ascending []
| asc_one i e : array_index (fst e) = Some i -> ascending [(i, e)]
| asc_cons i e j e' l :
    array_index (fst e) = Some i -> i <= j ->
    ascending ((j, e') :: l) -> ascending ((i, e) :: (j, e') :: l).

End Vocabulary.

(** ** Vocabulary of the further properties *)

Section FurtherVocabulary.
Context {J : JSNumber}.

(** The shape of a value that [parseStyleValue] returns for a trimmed
    string without [;] and [=]. *)
Definition parsed_value (v : style_value) : Prop :=
  match v with
  | VUndefined | VNull => False
  | VBool _ => True
  | VNum n => isNaN n = false
  | VStr t =>
      plain t = true /\ trim t = t /\
      t <> js "true" /\ t <> js "false" /\ isNaN (Number t) = true
  end.

(** The geometry export writes for a live geometry: [geometry.x || 0]
    and so on. *)
Definition exported_geometry (geometry : GeometryData) : GeometryData :=
  {| x := or_zero (x geometry); y := or_zero (y geometry);
     width := or_zero (width geometry); height := or_zero (height geometry) |}.

(** A vertex element after an import into [g] and an export. *)
Definition reexported_vertex (g : mxGraph) (cellData : GraphCell) : GraphCell :=
  {| id := id cellData; type := vertex; value := value cellData;
     geometry := exported_geometry (geometry cellData);
     style := parseStyle (formatStyle (style cellData));
     source := None; target := None;
     parent := or_undefined (root_id g) |}.

(** An edge element after an import into [g] that connects it to the
    cells of the vertex elements it names, and an export. *)
Definition reexported_edge (g : mxGraph) (cellData : GraphCell) : GraphCell :=
  {| id := id cellData; type := edge; value := value cellData;
     geometry := zero_geometry;
     style := parseStyle (formatStyle (style cellData));
     source := source cellData; target := target cellData;
     parent := or_undefined (root_id g) |}.

(** An edge element whose source and target are present, not empty, and
    ids of vertex elements of the list. *)
Definition names_vertices (cells : list GraphCell) (cellData : GraphCell)
    : bool :=
  is_edge cellData
  && truthy_opt (source cellData) && truthy_opt (target cellData)
  && existsb (fun v => is_vertex v
                       && str_eqb (id v) (or_empty (source cellData))) cells
  && existsb (fun v => is_vertex v
                       && str_eqb (id v) (or_empty (target cellData))) cells.

(** The Documents for which pass 2 hands nothing but cells of this
    import to [graph.insertEdge]: no vertex element is named
    [__proto__], and no edge element names, as source or as target, a
    member that [idMap] inherits, unless a vertex element has that id.
    What [graph.insertEdge] does with a terminal that is no cell is not
    part of the model. *)
Definition plain_terminals (data : GraphData) : Prop :=
  (forall v, In v (cells data) -> type v = vertex -> id v <> js "__proto__") /\
  forall e k,
    In e (cells data) -> type e = edge ->
    source e = Some k \/ target e = Some k ->
    inherited_name k = false \/
    exists v, In v (cells data) /\ type v = vertex /\ id v = k.

(** The ids of the elements are distinct and not in use in the live
    model: they differ from the id of the root and, when the model is
    not cleared, from the ids of its cells.  What the widget does with
    an id that is in use is not part of the model. *)
Definition fresh_ids (g : mxGraph) (data : GraphData) (clearExisting : bool)
    : Prop :=
  NoDup (map id (cells data)) /\
  (forall c, In c (cells data) -> root_id g <> Some (id c)) /\
  (clearExisting = false ->
   forall c c', In c (cells data) -> In c' (children g) ->
                getId (snd c') <> Some (id c)).

(** The cells a live cell refers to. *)
Definition cell_refs (c : mxCell) : list handle :=
  match getParent c with Some p => [p] | None => [] end
  ++ match getSource c with Some (RCell h) => [h] | _ => [] end
  ++ match getTarget c with Some (RCell h) => [h] | _ => [] end.

(** Every cell the live model holds or refers to was created before the
    next one. *)
Definition model_closed (g : mxGraph) : Prop :=
  forall c, In c (children g) ->
    (fst c < next_handle g)%nat /\
    forall h, In h (cell_refs (snd c)) -> (h < next_handle g)%nat.

(** An element with the fields that import does not read blanked: the
    parent of every element, the geometry of an edge, the terminals of a
    vertex. *)
Definition imported_fields (cellData : GraphCell) : GraphCell :=
  {| id := id cellData; type := type cellData; value := value cellData;
     geometry := match type cellData with
                 | vertex => geometry cellData
                 | edge => zero_geometry
                 end;
     style := style cellData;
     source := match type cellData with
               | edge => source cellData
               | vertex => None
               end;
     target := match type cellData with
               | edge => target cellData
               | vertex => None
               end;
     parent := None |}.

(** The root-level cells that export lists. *)
Definition exported_kind (c : handle * mxCell) : bool :=
  isEdge (snd c) || isVertex (snd c).

(** Pass 2 creates an edge for the element. *)
Definition connected (g : mxGraph) (idMap : IdMap) (cellData : GraphCell)
    : bool :=
  match edge_terminals g idMap cellData with
  | Some _ => true
  | None => false
  end.

(** A sample Document with its parts in the fields import ignores, and
    with an edge to [zz], which names nothing. *)
Definition sample_document : GraphData :=
  {| cells :=
       [{| id := js "a"; type := vertex; value := js "A";
           geometry := {| x := Number (js "10"); y := Number (js "20");
                          width := Number (js "80");
                          height := Number (js "30") |};
           style := [(js "rounded", VBool true)];
           source := Some (js "b"); target := None;
           parent := Some (js "7") |};
        vertex_at (js "b");
        {| id := js "e1"; type := edge; value := [];
           geometry := {| x := Number (js "5"); y := num_zero;
                          width := num_zero; height := num_zero |};
           style := []; source := Some (js "a"); target := Some (js "b");
           parent := Some (js "1") |};
        edge_between (js "e2") (js "a") (js "zz")];
     viewport := Some {| scale := Number (js "2");
                         translate := (Number (js "3"), Number (js "4")) |} |}.

(** A sample Document of the kind that export writes for [empty_model]:
    vertices first, the id of the root as parent, a zero geometry on the
    edge. *)
Definition normal_document : GraphData :=
  {| cells :=
       [{| id := js "a"; type := vertex; value := js "A";
           geometry := {| x := Number (js "10"); y := Number (js "20");
                          width := Number (js "80");
                          height := Number (js "30") |};
           style := [(js "rounded", VBool true)];
           source := None; target := None; parent := Some (js "0") |};
        {| id := js "b"; type := vertex; value := [];
           geometry := zero_geometry; style := [];
           source := None; target := None; parent := Some (js "0") |};
        {| id := js "e1"; type := edge; value := js "link";
           geometry := zero_geometry;
           style := [(js "dashed", VNum (Number (js "1")))];
           source := Some (js "a"); target := Some (js "b");
           parent := Some (js "0") |}];
     viewport := Some {| scale := Number (js "2");
                         translate := (Number (js "3"), Number (js "4")) |} |}.

End FurtherVocabulary.

(* ================================================================== *)
(** * Part II: properties                                              *)
(* ================================================================== *)

(** ** Strings *)

Lemma str_eqb_eq (a b : jsstring) : str_eqb a b = true <-> a = b.
Proof.
  revert b; induction a as [|c a IH]; intros [|d b]; simpl;
    try (split; congruence).
  rewrite andb_true_iff, N.eqb_eq, IH. split.
  - intros [-> ->]; reflexivity.
  - intros E; injection E; auto.
Qed.

Lemma str_eqb_refl (a : jsstring) : str_eqb a a = true.
Proof. apply str_eqb_eq; reflexivity. Qed.

Lemma str_eqb_neq (a b : jsstring) : str_eqb a b = false <-> a <> b.
Proof.
  split.
  - intros E ->. rewrite str_eqb_refl in E. discriminate.
  - intros NE. destruct (str_eqb a b) eqn:E; [|reflexivity].
    apply str_eqb_eq in E. contradiction.
Qed.

Lemma truthy_str_true (s : jsstring) : truthy_str s = true <-> s <> [].
Proof. destruct s; simpl; split; congruence. Qed.

Lemma no_unit_app (c : code_unit) (a b : jsstring) :
  no_unit c (a ++ b) = no_unit c a && no_unit c b.
Proof. unfold no_unit. apply forallb_app. Qed.

Lemma plain_app (a b : jsstring) :
  plain (a ++ b) = true <-> plain a = true /\ plain b = true.
Proof.
  unfold plain. rewrite !no_unit_app, !andb_true_iff. tauto.
Qed.

Lemma split_not_nil (sep : code_unit) (s : jsstring) : split sep s <> [].
Proof.
  induction s as [|c s IH]; simpl; [discriminate|].
  destruct (c =? sep); [discriminate|].
  destruct (split sep s); discriminate.
Qed.

(** A string without the separator is a single field. *)
Lemma split_no_unit (sep : code_unit) (s : jsstring) :
  no_unit sep s = true -> split sep s = [s].
Proof.
  induction s as [|c s IH]; simpl; [reflexivity|].
  rewrite andb_true_iff, negb_true_iff. intros [-> H].
  rewrite (IH H). reflexivity.
Qed.

(** The first field ends at the first separator. *)
Lemma split_app (sep : code_unit) (a b : jsstring) :
  no_unit sep a = true -> split sep (a ++ sep :: b) = a :: split sep b.
Proof.
  induction a as [|c a IH]; simpl.
  - intros _. rewrite N.eqb_refl. reflexivity.
  - rewrite andb_true_iff, negb_true_iff. intros [-> H].
    rewrite (IH H). reflexivity.
Qed.

(** No field contains the separator, and a field contains no code unit
    that the whole string does not. *)
Lemma split_fields_no_sep (sep : code_unit) (s : jsstring) :
  Forall (fun f => no_unit sep f = true) (split sep s).
Proof.
  induction s as [|c s IH]; simpl; [repeat constructor|].
  destruct (c =? sep) eqn:E.
  - constructor; [reflexivity | exact IH].
  - unfold no_unit in *.
    destruct (split sep s) as [|h t]; inversion IH; subst;
      constructor; simpl; auto; rewrite E; simpl; auto.
Qed.

Lemma split_fields_no_unit (sep c : code_unit) (s : jsstring) :
  no_unit c s = true ->
  Forall (fun f => no_unit c f = true) (split sep s).
Proof.
  induction s as [|d s IH]; simpl; [repeat constructor|].
  rewrite andb_true_iff. intros [Hd Hs]. specialize (IH Hs).
  unfold no_unit in *.
  destruct (d =? sep).
  - constructor; [reflexivity | exact IH].
  - destruct (split sep s) as [|h t]; inversion IH; subst;
      constructor; simpl; auto; rewrite Hd; simpl; auto.
Qed.

(** Joining fields that are free of the separator and splitting again
    gives the fields back. *)
Lemma split_join (sep : code_unit) (parts : list jsstring) :
  parts <> [] ->
  Forall (fun f => no_unit sep f = true) parts ->
  split sep (join [sep] parts) = parts.
Proof.
  induction parts as [|p rest IH]; [congruence|].
  intros _ H. inversion H as [|? ? Hp Hrest]; subst.
  destruct rest as [|q rest'].
  - simpl. apply split_no_unit. assumption.
  - change (join [sep] (p :: q :: rest'))
      with (p ++ sep :: join [sep] (q :: rest')).
    rewrite split_app by assumption.
    rewrite IH; [reflexivity | discriminate | assumption].
Qed.

Lemma join_cons (sep p q : jsstring) (rest : list jsstring) :
  join sep (p :: q :: rest) = p ++ sep ++ join sep (q :: rest).
Proof. reflexivity. Qed.

(** Splitting and joining again gives the string back. *)
Lemma join_split (sep : code_unit) (s : jsstring) :
  join [sep] (split sep s) = s.
Proof.
  induction s as [|c s IH]; [reflexivity|]. simpl split.
  pose proof (split_not_nil sep s) as Hn.
  destruct (c =? sep) eqn:E.
  - apply N.eqb_eq in E. subst c.
    destruct (split sep s) as [|h t]; [congruence|].
    rewrite join_cons, IH. reflexivity.
  - destruct (split sep s) as [|h t]; [congruence|].
    destruct t as [|h' t'].
    + simpl in *. congruence.
    + rewrite join_cons. rewrite join_cons in IH.
      rewrite <- IH. reflexivity.
Qed.

Lemma join_nil_iff (sep : jsstring) (parts : list jsstring) :
  sep <> [] -> join sep parts = [] -> parts = [] \/ parts = [[]].
Proof.
  intros Hsep. destruct parts as [|p [|q rest]]; simpl; auto.
  - intros ->. auto.
  - intros E. apply app_eq_nil in E. destruct E as [_ E].
    apply app_eq_nil in E. destruct E as [E _]. contradiction.
Qed.

(** *** Trimming *)

Lemma trimStart_head (s : jsstring) :
  trimStart s = [] \/
  exists c r, trimStart s = c :: r /\ is_white_space c = false.
Proof.
  induction s as [|c s IH]; simpl; [left; reflexivity|].
  destruct (is_white_space c) eqn:E; [exact IH|].
  right. exists c, s. auto.
Qed.

Lemma trimStart_prefix (s : jsstring) :
  exists w, s = w ++ trimStart s.
Proof.
  induction s as [|c s [w IH]]; simpl.
  - exists []. reflexivity.
  - destruct (is_white_space c).
    + exists (c :: w). simpl. congruence.
    + exists []. reflexivity.
Qed.

Lemma trimStart_Forall (P : code_unit -> Prop) (s : jsstring) :
  Forall P s -> Forall P (trimStart s).
Proof.
  induction 1 as [|c s Hc Hs IH]; simpl; [constructor|].
  destruct (is_white_space c); [exact IH | constructor; assumption].
Qed.

Lemma trim_Forall (P : code_unit -> Prop) (s : jsstring) :
  Forall P s -> Forall P (trim s).
Proof.
  intros H. unfold trim.
  apply Forall_rev, trimStart_Forall, Forall_rev, trimStart_Forall, H.
Qed.

Lemma no_unit_Forall (c : code_unit) (s : jsstring) :
  no_unit c s = true <-> Forall (fun d => d <> c) s.
Proof.
  unfold no_unit. rewrite forallb_forall, Forall_forall.
  split; intros H d Hd; specialize (H d Hd).
  - rewrite negb_true_iff, N.eqb_neq in H. exact H.
  - rewrite negb_true_iff, N.eqb_neq. exact H.
Qed.

Lemma no_unit_trim (c : code_unit) (s : jsstring) :
  no_unit c s = true -> no_unit c (trim s) = true.
Proof. rewrite !no_unit_Forall. apply trim_Forall. Qed.

Lemma plain_trim (s : jsstring) : plain s = true -> plain (trim s) = true.
Proof.
  unfold plain. rewrite !andb_true_iff.
  intros [H1 H2]. split; apply no_unit_trim; assumption.
Qed.

(** [trim] is idempotent. *)
Lemma trim_idempotent (s : jsstring) : trim (trim s) = trim s.
Proof.
  unfold trim.
  destruct (trimStart_head (rev (trimStart s))) as [E | (c & u & E & Hc)].
  - rewrite E. reflexivity.
  - rewrite E.
    assert (Hhead : trimStart (rev (c :: u)) = rev (c :: u)).
    { destruct (trimStart_prefix (rev (trimStart s))) as [w Hw].
      rewrite E in Hw.
      assert (Ht : trimStart s = rev (c :: u) ++ rev w).
      { rewrite <- rev_app_distr, <- Hw, rev_involutive. reflexivity. }
      destruct (rev (c :: u)) as [|d ru] eqn:Er.
      - apply (f_equal (@rev _)) in Er. rewrite rev_involutive in Er.
        discriminate.
      - destruct (trimStart_head s) as [E0 | (c0 & r0 & E0 & Hc0)].
        + rewrite E0 in Ht. discriminate.
        + rewrite E0 in Ht. simpl in Ht. injection Ht as -> _.
          simpl. rewrite Hc0. reflexivity. }
    rewrite Hhead, rev_involutive. simpl. rewrite Hc. reflexivity.
Qed.

Lemma trimmed_trim (s : jsstring) : trimmed (trim s) = true.
Proof. unfold trimmed. rewrite trim_idempotent. apply str_eqb_refl. Qed.

(** A string without white space is left as it is. *)
Lemma trim_no_white_space (s : jsstring) :
  forallb (fun c => negb (is_white_space c)) s = true -> trim s = s.
Proof.
  intros H.
  assert (Hs : forall t, forallb (fun c => negb (is_white_space c)) t = true ->
                         trimStart t = t).
  { intros [|c t]; simpl; [reflexivity|].
    rewrite andb_true_iff, negb_true_iff. intros [-> _]. reflexivity. }
  unfold trim. rewrite (Hs s H), Hs, rev_involutive; [reflexivity|].
  rewrite forallb_forall in *. intros c Hc. apply H, in_rev, Hc.
Qed.

(** Number units are neither white space nor separators. *)
Lemma number_unit_facts (c : code_unit) :
  is_number_unit c = true ->
  is_white_space c = false /\ c <> semicolon /\ c <> equals_sign /\
  c <> 114 /\ c <> 97.
Proof.
  unfold is_number_unit. rewrite existsb_exists.
  intros (d & Hd & E). apply N.eqb_eq in E. subst d.
  revert c Hd. apply Forall_forall.
  unfold number_units. repeat constructor; discriminate.
Qed.

(** ** The conversions on decimal integer literals obey the laws *)

Lemma uint_units_number_units (d : Decimal.uint) :
  forallb is_number_unit (uint_units d) = true.
Proof. induction d; simpl; auto. Qed.

Lemma units_uint_uint_units (d : Decimal.uint) :
  units_uint (uint_units d) = Some d.
Proof. induction d; simpl; try rewrite IHd; reflexivity. Qed.

Lemma number_units_no_white_space (s : jsstring) :
  forallb is_number_unit s = true ->
  forallb (fun c => negb (is_white_space c)) s = true.
Proof.
  rewrite !forallb_forall. intros H c Hc.
  destruct (number_unit_facts c (H c Hc)) as [-> _]. reflexivity.
Qed.

Lemma number_units_plain (s : jsstring) :
  forallb is_number_unit s = true -> plain s = true.
Proof.
  intros H. unfold plain. rewrite andb_true_iff, !no_unit_Forall.
  rewrite forallb_forall in H.
  split; apply Forall_forall; intros c Hc;
    destruct (number_unit_facts c (H c Hc)) as (_ & ? & ? & _); assumption.
Qed.

Lemma number_units_not_boolean (s : jsstring) :
  forallb is_number_unit s = true -> s <> js "true" /\ s <> js "false".
Proof.
  intros H. rewrite forallb_forall in H. split; intros ->.
  - destruct (number_unit_facts 114 (H 114 ltac:(simpl; tauto)))
      as (_ & _ & _ & E & _). congruence.
  - destruct (number_unit_facts 97 (H 97 ltac:(simpl; tauto)))
      as (_ & _ & _ & _ & E). congruence.
Qed.

Lemma to_uint_not_nil (n : N) : N.to_uint n <> Decimal.Nil.
Proof.
  destruct n; simpl; [discriminate|].
  apply DecimalPos.Unsigned.to_uint_nonnil.
Qed.

#[export] Instance IntegerNumber_laws : JSNumberLaws IntegerNumber.
Proof.
  constructor.
  - reflexivity.
  - intros [n|]; simpl; [intros _ | discriminate]. split.
    + pose proof (to_uint_not_nil n). destruct (N.to_uint n);
        simpl; congruence.
    + apply uint_units_number_units.
  - intros [n|]; simpl; [intros _ | discriminate].
    unfold int_Number.
    rewrite trim_no_white_space
      by apply number_units_no_white_space, uint_units_number_units.
    rewrite units_uint_uint_units, DecimalN.Unsigned.of_to. reflexivity.
Qed.

(** ** Ordinary objects *)

Section Objects.
Context {J : JSNumber}.

Lemma has_key_In (k : jsstring) (o : obj) :
  has_key k o = true <-> In k (keys o).
Proof.
  unfold has_key, keys. rewrite existsb_exists, in_map_iff. split.
  - intros (e & He & E). apply str_eqb_eq in E. exists e. auto.
  - intros (e & E & He). exists e. split; [assumption|].
    apply str_eqb_eq. auto.
Qed.

Lemma keys_replace (k : jsstring) (v : style_value) (o : obj) :
  keys (replace k v o) = keys o.
Proof.
  induction o as [|e o IH]; simpl; [reflexivity|].
  destruct (str_eqb k (fst e)); simpl; congruence.
Qed.

(** Assignment adds at most the assigned name, last. *)
Lemma keys_obj_set (o : obj) (k : jsstring) (v : style_value) :
  keys (obj_set o k v) = keys o \/
  (keys (obj_set o k v) = keys o ++ [k] /\ ~ In k (keys o) /\
   k <> js "__proto__").
Proof.
  unfold obj_set.
  destruct (str_eqb k (js "__proto__")) eqn:Ep; [left; reflexivity|].
  destruct (has_key k o) eqn:Eh.
  - left. apply keys_replace.
  - right. unfold keys. rewrite map_app. simpl. repeat split.
    + intros Hin. apply has_key_In in Hin. congruence.
    + apply str_eqb_neq. assumption.
Qed.

Lemma NoDup_keys_obj_set (o : obj) (k : jsstring) (v : style_value) :
  NoDup (keys o) -> NoDup (keys (obj_set o k v)).
Proof.
  intros H. destruct (keys_obj_set o k v) as [-> | (-> & Hk & _)]; auto.
  apply NoDup_app; auto with datatypes.
  - repeat constructor. simpl. tauto.
  - intros a Ha [<- | []]. contradiction.
Qed.

Lemma In_replace (k : jsstring) (v : style_value) (o : obj)
    (e : jsstring * style_value) :
  In e (replace k v o) -> In e o \/ e = (k, v).
Proof.
  induction o as [|e' o IH]; simpl; [tauto|].
  destruct (str_eqb k (fst e')) eqn:E; simpl.
  - apply str_eqb_eq in E. intros [<- | H]; [right; congruence | auto].
  - intros [<- | H]; [auto|]. destruct (IH H); auto.
Qed.

(** Every entry after an assignment was there before or is the one
    assigned. *)
Lemma In_obj_set (o : obj) (k : jsstring) (v : style_value)
    (e : jsstring * style_value) :
  In e (obj_set o k v) -> In e o \/ (e = (k, v) /\ k <> js "__proto__").
Proof.
  unfold obj_set.
  destruct (str_eqb k (js "__proto__")) eqn:Ep; [auto|].
  apply str_eqb_neq in Ep.
  destruct (has_key k o).
  - intros H. destruct (In_replace _ _ _ _ H); auto.
  - rewrite in_app_iff. simpl. intros [H | [<- | []]]; auto.
Qed.

Lemma obj_set_fresh (o : obj) (k : jsstring) (v : style_value) :
  k <> js "__proto__" -> ~ In k (keys o) -> obj_set o k v = o ++ [(k, v)].
Proof.
  intros Hp Hk. unfold obj_set.
  apply str_eqb_neq in Hp. rewrite Hp.
  destruct (has_key k o) eqn:E; [|reflexivity].
  apply has_key_In in E. contradiction.
Qed.

(** Creating the entries of a list one after the other, when their names
    are distinct, builds that list. *)
Lemma fold_obj_set_fresh (l acc : obj) :
  NoDup (keys (acc ++ l)) ->
  ~ In (js "__proto__") (keys l) ->
  fold_left (fun o e => obj_set o (fst e) (snd e)) l acc = acc ++ l.
Proof.
  revert acc. induction l as [|[k v] l IH]; intros acc Hnd Hp; simpl.
  - rewrite app_nil_r. reflexivity.
  - simpl in Hp.
    assert (Hk : ~ In k (keys acc)).
    { unfold keys in *. rewrite map_app in Hnd. simpl in Hnd.
      apply NoDup_remove_2 in Hnd. rewrite in_app_iff in Hnd. tauto. }
    rewrite obj_set_fresh; [| intuition congruence | assumption].
    rewrite IH.
    + rewrite <- app_assoc. reflexivity.
    + rewrite <- app_assoc. exact Hnd.
    + tauto.
Qed.

(** *** The order of [Object.entries] *)

Lemma insert_index_perm (i : N) (e : jsstring * style_value)
    (l : list (N * (jsstring * style_value))) :
  Permutation (insert_index i e l) ((i, e) :: l).
Proof.
  induction l as [|[j e'] l IH]; simpl; [reflexivity|].
  destruct (i <=? j); [reflexivity|].
  rewrite IH. apply perm_swap.
Qed.

Lemma entries_perm (o : obj) : Permutation (entries o) o.
Proof.
  unfold entries. induction o as [|e o IH]; simpl; [reflexivity|].
  destruct (array_index (fst e)) as [i|] eqn:E; simpl.
  - rewrite insert_index_perm. simpl. constructor. exact IH.
  - rewrite <- Permutation_middle. constructor. exact IH.
Qed.

Lemma In_entries (o : obj) (e : jsstring * style_value) :
  In e (entries o) <-> In e o.
Proof.
  split; apply Permutation_in;
    [apply entries_perm | symmetry; apply entries_perm].
Qed.

Lemma keys_entries_perm (o : obj) : Permutation (keys (entries o)) (keys o).
Proof. unfold keys. apply Permutation_map, entries_perm. Qed.

Lemma NoDup_keys_entries (o : obj) :
  NoDup (keys o) -> NoDup (keys (entries o)).
Proof.
  apply Permutation_NoDup. symmetry. apply keys_entries_perm.
Qed.

Lemma ascending_insert (i : N) (e : jsstring * style_value)
    (l : list (N * (jsstring * style_value))) :
  array_index (fst e) = Some i -> ascending l ->
  ascending (insert_index i e l).
Proof.
  intros He H. induction H as [| j e' He' | j e' j' e'' l He' Hle H IH];
    simpl.
  - constructor. assumption.
  - destruct (i <=? j) eqn:E.
    + apply N.leb_le in E. repeat constructor; assumption.
    + apply N.leb_gt in E. repeat constructor; try assumption. lia.
  - destruct (i <=? j) eqn:E.
    + apply N.leb_le in E. repeat constructor; assumption.
    + apply N.leb_gt in E. simpl in IH. destruct (i <=? j') eqn:E'.
      * constructor; [assumption | lia | exact IH].
      * constructor; [assumption | assumption | exact IH].
Qed.

Lemma ascending_index_props (o : obj) : ascending (index_props o).
Proof.
  induction o as [|e o IH]; simpl; [constructor|].
  destruct (array_index (fst e)) eqn:E; [|exact IH].
  apply ascending_insert; assumption.
Qed.

Lemma named_props_named (o : obj) :
  index_props (named_props o) = [] /\ named_props (named_props o) = named_props o.
Proof.
  unfold named_props. induction o as [|e o [IH1 IH2]]; simpl; [auto|].
  destruct (array_index (fst e)) eqn:E; simpl; [auto|].
  rewrite E. simpl. rewrite IH2. auto.
Qed.

Lemma props_cons_index (e : jsstring * style_value) (o : obj) (i : N) :
  array_index (fst e) = Some i ->
  index_props (e :: o) = insert_index i e (index_props o) /\
  named_props (e :: o) = named_props o.
Proof.
  intros E. unfold named_props. simpl. rewrite E. auto.
Qed.

Lemma ascending_entries (l : list (N * (jsstring * style_value))) (o : obj) :
  ascending l -> index_props o = [] -> named_props o = o ->
  index_props (map snd l ++ o) = l /\ named_props (map snd l ++ o) = o.
Proof.
  intros H Hi Hn. induction H as [| i e He | i e j e' l He Hle H IH].
  - auto.
  - change (map snd [(i, e)] ++ o) with (e :: o).
    destruct (props_cons_index e o i He) as [-> ->].
    rewrite Hi. auto.
  - change (map snd ((i, e) :: (j, e') :: l) ++ o)
      with (e :: (map snd ((j, e') :: l) ++ o)).
    destruct (props_cons_index e (map snd ((j, e') :: l) ++ o) i He)
      as [-> ->].
    destruct IH as [-> ->]. simpl.
    apply N.leb_le in Hle. rewrite Hle. auto.
Qed.

(** Listing an object in the order of [Object.entries] and listing the
    result again changes nothing. *)
Lemma entries_entries (o : obj) : entries (entries o) = entries o.
Proof.
  unfold entries at 1 3.
  destruct (named_props_named o) as [Hi Hn].
  destruct (ascending_entries (index_props o) (named_props o)
              (ascending_index_props o) Hi Hn) as [E1 E2].
  unfold entries. rewrite E1, E2. reflexivity.
Qed.

(** Without array-index names the order is the creation order. *)
Lemma entries_named (o : obj) :
  (forall k, In k (keys o) -> array_index k = None) -> entries o = o.
Proof.
  unfold entries, named_props, keys. induction o as [|e o IH]; simpl; auto.
  intros H. rewrite (H (fst e)) by auto. simpl in *.
  specialize (IH (fun k Hk => H k (or_intror Hk))).
  destruct (index_props o) eqn:E.
  - simpl in *. congruence.
  - exfalso. clear IH.
    assert (Hin : In (snd p) o).
    { apply (proj1 (In_entries _ _)). unfold entries. rewrite E. simpl. auto. }
    pose proof (ascending_index_props o) as Ha. rewrite E in Ha.
    assert (Hp : array_index (fst (snd p)) = Some (fst p)).
    { inversion Ha; subst; assumption. }
    rewrite (H (fst (snd p))) in Hp; [discriminate|].
    right. apply in_map. assumption.
Qed.

End Objects.

(** ** The style codec *)

Section Codec.
Context {J : JSNumber}.

Lemma fold_left_invariant {A B : Type} (f : A -> B -> A)
    (P : A -> Prop) (Q : B -> Prop) (l : list B) (a : A) :
  (forall a b, P a -> Q b -> P (f a b)) ->
  P a -> Forall Q l -> P (fold_left f l a).
Proof.
  intros Hf. revert a. induction l as [|b l IH]; intros a Ha Hl; simpl.
  - exact Ha.
  - inversion Hl; subst. apply IH; auto.
Qed.

Lemma fold_format_entry (l : list (jsstring * style_value))
    (acc : list jsstring) :
  fold_left format_entry l acc
  = acc ++ map segment (filter (fun e => defined (snd e)) l).
Proof.
  revert acc. induction l as [|[k v] l IH]; intros acc; simpl.
  - rewrite app_nil_r. reflexivity.
  - rewrite IH. destruct (defined v); simpl; [|reflexivity].
    rewrite <- app_assoc. reflexivity.
Qed.

Lemma formatStyle_join (style : obj) :
  formatStyle style
  = join (js ";")
      (map segment (filter (fun e => defined (snd e)) (entries style))).
Proof. unfold formatStyle. rewrite fold_format_entry. reflexivity. Qed.

(** A part made of fields that are free of [=]: the first two are the
    key and the value, the others are ignored. *)
Lemma parse_part_fields (o : obj) (key value : jsstring)
    (others : list jsstring) :
  Forall (fun f => no_unit equals_sign f = true) (key :: value :: others) ->
  parse_part o (join (js "=") (key :: value :: others))
  = if truthy_str key && truthy_str value
    then obj_set o (trim key) (parseStyleValue (trim value))
    else o.
Proof.
  intros H. unfold parse_part.
  change (js "=") with [equals_sign].
  rewrite split_join; [reflexivity | discriminate | assumption].
Qed.

(** A part without [=] stores nothing. *)
Lemma parse_part_no_equals (o : obj) (part : jsstring) :
  no_unit equals_sign part = true -> parse_part o part = o.
Proof.
  intros H. unfold parse_part. rewrite split_no_unit by assumption.
  reflexivity.
Qed.

(** Parts that are free of [;], joined by [;], are parsed one by one. *)
Lemma parseStyle_join (segs : list jsstring) :
  Forall (fun p => no_unit semicolon p = true) segs ->
  parseStyle (join (js ";") segs) = fold_left parse_part segs [].
Proof.
  intros H. unfold parseStyle.
  destruct (truthy_str (join (js ";") segs)) eqn:E; simpl.
  - change (js ";") with [semicolon]. rewrite split_join; auto.
    intros ->. discriminate.
  - destruct (join (js ";") segs) eqn:Ej; [|discriminate].
    apply join_nil_iff in Ej; [|discriminate].
    destruct Ej as [-> | ->]; reflexivity.
Qed.

Lemma keys_parse_part (o : obj) (part k : jsstring) :
  In k (keys (parse_part o part)) ->
  In k (keys o) \/
  exists key value rest,
    split equals_sign part = key :: value :: rest /\
    key <> [] /\ value <> [] /\ k = trim key.
Proof.
  unfold parse_part.
  destruct (split equals_sign part) as [|key [|value rest]]; auto.
  destruct (truthy_str key) eqn:Ek; auto.
  destruct (truthy_str value) eqn:Ev; auto. simpl.
  intros H. destruct (keys_obj_set o (trim key) (parseStyleValue (trim value)))
    as [E | (E & _)]; rewrite E in H; auto.
  unfold keys in H. apply in_app_or in H. destruct H as [H | [<- | []]]; auto.
  right. exists key, value, rest. repeat split.
  - apply truthy_str_true. assumption.
  - apply truthy_str_true. assumption.
Qed.

Lemma NoDup_keys_parse_part (o : obj) (part : jsstring) :
  NoDup (keys o) -> NoDup (keys (parse_part o part)).
Proof.
  intros H. unfold parse_part.
  destruct (split equals_sign part) as [|key [|value rest]]; auto.
  destruct (truthy_str key && truthy_str value); auto.
  apply NoDup_keys_obj_set. assumption.
Qed.

Lemma NoDup_keys_parseStyle (s : jsstring) : NoDup (keys (parseStyle s)).
Proof.
  unfold parseStyle. destruct (negb (truthy_str s)); [constructor|].
  apply (fold_left_invariant parse_part (fun o => NoDup (keys o))
           (fun _ => True)).
  - intros. apply NoDup_keys_parse_part. assumption.
  - constructor.
  - apply Forall_forall. auto.
Qed.

Lemma NoDup_keys_unique (o : obj) (k : jsstring) (v w : style_value) :
  NoDup (keys o) -> In (k, v) o -> In (k, w) o -> v = w.
Proof.
  induction o as [|[k' v'] o IH]; simpl; [tauto|].
  intros Hnd. inversion Hnd as [|? ? Hk Hnd']; subst.
  intros [E1 | H1] [E2 | H2].
  - congruence.
  - injection E1 as -> ->. exfalso. apply Hk.
    change k with (fst (k, w)). apply in_map. assumption.
  - injection E2 as -> ->. exfalso. apply Hk.
    change k with (fst (k, v)). apply in_map. assumption.
  - auto.
Qed.

(** *** What [parseStyle] stores can be written and read back *)

Section Laws.
Context {L : JSNumberLaws J}.

Lemma parseStyleValue_roundtrips (t : jsstring) :
  plain t = true -> trim t = t -> roundtrips (parseStyleValue t).
Proof.
  intros Hp Ht. unfold parseStyleValue.
  destruct (str_eqb t (js "true")) eqn:E1.
  { repeat split; try reflexivity. discriminate. }
  destruct (str_eqb t (js "false")) eqn:E2.
  { repeat split; try reflexivity. discriminate. }
  destruct (isNaN (Number t)) eqn:E3; simpl.
  - unfold roundtrips, parseStyleValue. simpl.
    rewrite E1, E2, E3. simpl. repeat split; auto.
    intros ->. rewrite Number_empty in E3. discriminate.
  - destruct (num_to_string_units _ E3) as [Hne Hu].
    destruct (number_units_not_boolean _ Hu) as [Nt Nf].
    unfold roundtrips, parseStyleValue. simpl.
    apply str_eqb_neq in Nt, Nf. rewrite Nt, Nf.
    rewrite (Number_num_to_string _ E3), E3. simpl.
    repeat split; auto.
    + apply number_units_plain. assumption.
    + apply trim_no_white_space, number_units_no_white_space. assumption.
Qed.

Lemma parse_part_codec_entries (o : obj) (part : jsstring) :
  no_unit semicolon part = true ->
  Forall codec_entry o -> Forall codec_entry (parse_part o part).
Proof.
  intros Hs Ho. unfold parse_part.
  pose proof (split_fields_no_sep equals_sign part) as He.
  pose proof (split_fields_no_unit equals_sign semicolon part Hs) as Hc.
  destruct (split equals_sign part) as [|key [|value rest]]; auto.
  destruct (truthy_str key && truthy_str value); auto.
  inversion He as [|? ? Hke He']; inversion He' as [|? ? Hve _]; subst.
  inversion Hc as [|? ? Hkc Hc']; inversion Hc' as [|? ? Hvc _]; subst.
  apply Forall_forall. intros e Hin.
  apply In_obj_set in Hin. destruct Hin as [Hin | [-> Hproto]].
  - rewrite Forall_forall in Ho. auto.
  - split; simpl.
    + repeat split; auto using trim_idempotent.
      apply plain_trim. unfold plain. rewrite Hkc, Hke. reflexivity.
    + apply parseStyleValue_roundtrips; auto using trim_idempotent.
      apply plain_trim. unfold plain. rewrite Hvc, Hve. reflexivity.
Qed.

Lemma parseStyle_codec_entries (s : jsstring) :
  Forall codec_entry (parseStyle s).
Proof.
  unfold parseStyle. destruct (negb (truthy_str s)); [constructor|].
  apply (fold_left_invariant parse_part (Forall codec_entry)
           (fun p => no_unit semicolon p = true)).
  - intros. apply parse_part_codec_entries; assumption.
  - constructor.
  - apply split_fields_no_sep.
Qed.

Lemma segment_join (e : jsstring * style_value) :
  segment e = join (js "=") [fst e; to_String (snd e)].
Proof. reflexivity. Qed.

(** Reading the segment of such an entry assigns the entry. *)
Lemma parse_part_segment (o : obj) (e : jsstring * style_value) :
  codec_entry e -> fst e <> [] ->
  parse_part o (segment e) = obj_set o (fst e) (snd e).
Proof.
  intros [(Hkp & Hkt & _) (_ & Hne & Hvp & Hvt & Hpv)] Hk.
  rewrite segment_join.
  unfold plain in Hkp, Hvp. apply andb_true_iff in Hkp, Hvp.
  rewrite parse_part_fields by (repeat constructor; tauto).
  apply truthy_str_true in Hk, Hne. rewrite Hk, Hne. simpl.
  rewrite Hkt, Hvt, Hpv. reflexivity.
Qed.

Lemma segment_no_semicolon (e : jsstring * style_value) :
  plain (fst e) = true -> plain (to_String (snd e)) = true ->
  no_unit semicolon (segment e) = true.
Proof.
  unfold plain, segment. rewrite !andb_true_iff, !no_unit_app.
  intros [-> _] [-> _]. reflexivity.
Qed.

Lemma fold_parse_part_segments (E : obj) (acc : obj) :
  Forall codec_entry E -> (forall k, In k (keys E) -> k <> []) ->
  fold_left parse_part (map segment E) acc
  = fold_left (fun o e => obj_set o (fst e) (snd e)) E acc.
Proof.
  revert acc. induction E as [|e E IH]; intros acc HE Hk; simpl; auto.
  inversion HE; subst.
  rewrite parse_part_segment; [| assumption | apply Hk; simpl; auto].
  apply IH; auto. intros k Hin. apply Hk. simpl. auto.
Qed.

(** Writing entries with distinct, non-empty names and reading the string
    back gives the entries, in the order they were written. *)
Lemma parseStyle_segments_of (E : obj) :
  Forall codec_entry E -> (forall k, In k (keys E) -> k <> []) ->
  NoDup (keys E) ->
  parseStyle (join (js ";") (map segment E)) = E.
Proof.
  intros HE Hk Hnd.
  rewrite parseStyle_join.
  - rewrite fold_parse_part_segments by assumption.
    rewrite fold_obj_set_fresh; auto.
    intros Hin. unfold keys in Hin. apply in_map_iff in Hin.
    destruct Hin as (e & Ee & Hin).
    rewrite Forall_forall in HE. destruct (HE e Hin) as [(_ & _ & Hp) _].
    congruence.
  - apply Forall_forall. intros p Hp. apply in_map_iff in Hp.
    destruct Hp as (e & <- & Hin).
    rewrite Forall_forall in HE.
    destruct (HE e Hin) as [(Hkp & _) (_ & _ & Hvp & _)].
    apply segment_no_semicolon; assumption.
Qed.

Lemma filter_defined_codec (E : obj) :
  Forall codec_entry E -> filter (fun e => defined (snd e)) E = E.
Proof.
  induction 1 as [|e E [_ (Hd & _)] HE IH]; simpl; [reflexivity|].
  rewrite Hd, IH. reflexivity.
Qed.

End Laws.
End Codec.

(** ** The statements about the style codec *)

Section CodecClaims.
Context {J : JSNumber}.

Lemma In_replace_new (k : jsstring) (v : style_value) (o : obj) :
  has_key k o = true -> In (k, v) (replace k v o).
Proof.
  unfold has_key. induction o as [|e o IH]; simpl; [discriminate|].
  destruct (str_eqb k (fst e)) eqn:E; simpl.
  - apply str_eqb_eq in E. subst. auto.
  - auto.
Qed.

Lemma In_obj_set_new (o : obj) (k : jsstring) (v : style_value) :
  k <> js "__proto__" -> In (k, v) (obj_set o k v).
Proof.
  intros Hp. unfold obj_set. apply str_eqb_neq in Hp. rewrite Hp.
  destruct (has_key k o) eqn:E.
  - apply In_replace_new. assumption.
  - apply in_or_app. simpl. auto.
Qed.

(** C2 (amended).  [parseStyle] splits the string on [;] (the parts are
    free of [;] and give the string back when joined by [;]) and handles
    the parts one by one.  Each part is split on every [=]: the first field
    is the key and the second the value, further fields are ignored, so
    [k=a=b] maps [k] to the coercion of [a].  A part whose first or
    second field is missing or empty stores nothing; otherwise the
    trimmed key is assigned the coerced trimmed value. *)
Theorem parseStyle_splits_fields :
  (forall styleStr,
     parseStyle styleStr = fold_left parse_part (split semicolon styleStr) [] /\
     join (js ";") (split semicolon styleStr) = styleStr /\
     Forall (fun p => no_unit semicolon p = true) (split semicolon styleStr)) /\
  (forall segs,
     Forall (fun p => no_unit semicolon p = true) segs ->
     parseStyle (join (js ";") segs) = fold_left parse_part segs []) /\
  (forall o key value others,
     Forall (fun f => no_unit equals_sign f = true) (key :: value :: others) ->
     parse_part o (join (js "=") (key :: value :: others))
     = if truthy_str key && truthy_str value
       then obj_set o (trim key) (parseStyleValue (trim value))
       else o) /\
  (forall o part, no_unit equals_sign part = true -> parse_part o part = o) /\
  parseStyle (js "k=a=b") = [(js "k", parseStyleValue (js "a"))].
Proof.
  split; [|repeat split].
  - intros styleStr. repeat split.
    + destruct styleStr; reflexivity.
    + apply (join_split semicolon).
    + apply split_fields_no_sep.
  - apply parseStyle_join.
  - apply parse_part_fields.
  - apply parse_part_no_equals.
Qed.

(** C3 (amended).  What [parseStyle] stores for a segment whose key and
    value fields are not empty is the coercion of the trimmed value
    field, under the trimmed key: [parseStyleValue] turns ["true"] and
    ["false"] into the booleans, a string that [Number] converts (the
    result is not NaN) into that number, and leaves every other string
    as it is.  So the value field itself is stored unchanged exactly
    when it has no white space at either end, is neither ["true"] nor
    ["false"] and is not converted by [Number]. *)
Theorem parseStyleValue_coercion :
  parseStyleValue (js "true") = VBool true /\
  parseStyleValue (js "false") = VBool false /\
  (forall v, v <> js "true" -> v <> js "false" ->
     isNaN (Number v) = false -> parseStyleValue v = VNum (Number v)) /\
  (forall v, v <> js "true" -> v <> js "false" ->
     isNaN (Number v) = true -> parseStyleValue v = VStr v) /\
  (forall o key value others,
     Forall (fun f => no_unit equals_sign f = true) (key :: value :: others) ->
     key <> [] -> value <> [] -> trim key <> js "__proto__" ->
     In (trim key, parseStyleValue (trim value))
        (parse_part o (join (js "=") (key :: value :: others))) /\
     (NoDup (keys o) ->
      forall w,
        In (trim key, w) (parse_part o (join (js "=") (key :: value :: others))) ->
        w = parseStyleValue (trim value))) /\
  (forall value,
     parseStyleValue (trim value) = VStr value <->
     trim value = value /\ value <> js "true" /\ value <> js "false" /\
     isNaN (Number value) = true).
Proof.
  assert (H4 : forall v, v <> js "true" -> v <> js "false" ->
                 isNaN (Number v) = true -> parseStyleValue v = VStr v).
  { intros v Ht Hf Hn. unfold parseStyleValue.
    apply str_eqb_neq in Ht, Hf. rewrite Ht, Hf, Hn. reflexivity. }
  assert (H5 : forall o key value others,
             Forall (fun f => no_unit equals_sign f = true)
               (key :: value :: others) ->
             key <> [] -> value <> [] -> trim key <> js "__proto__" ->
             In (trim key, parseStyleValue (trim value))
                (parse_part o (join (js "=") (key :: value :: others)))).
  { intros o key value others H Hk Hv Hp.
    rewrite parse_part_fields by assumption.
    apply truthy_str_true in Hk, Hv. rewrite Hk, Hv. simpl.
    apply In_obj_set_new. assumption. }
  split; [reflexivity|]. split; [reflexivity|]. split; [|split; [exact H4|]].
  - intros v Ht Hf Hn. unfold parseStyleValue.
    apply str_eqb_neq in Ht, Hf. rewrite Ht, Hf, Hn. reflexivity.
  - split.
    + intros o key value others H Hk Hv Hp.
      split; [apply H5; assumption|].
      intros Hnd w Hw.
      apply (NoDup_keys_unique
               (parse_part o (join (js "=") (key :: value :: others)))
               (trim key)); auto.
      apply NoDup_keys_parse_part, Hnd.
    + intros value. split.
      * unfold parseStyleValue.
        destruct (str_eqb (trim value) (js "true")) eqn:E1; [discriminate|].
        destruct (str_eqb (trim value) (js "false")) eqn:E2; [discriminate|].
        destruct (isNaN (Number (trim value))) eqn:E3; [|discriminate].
        intros E. injection E as E. rewrite E in E1, E2, E3.
        apply str_eqb_neq in E1, E2. auto.
      * intros (Et & Ht & Hf & Hn). rewrite Et. apply H4; assumption.
Qed.

(** C4 (amended).  [formatStyle] writes one segment [key=String(value)]
    for each entry whose value is neither [undefined] nor [null] and
    joins the segments with [;], in the order of [Object.entries]: the
    entries of the mapping (each of them once) with the array-index keys
    first, in ascending order, and then the other keys in insertion
    order.  For a mapping without array-index keys this is the insertion
    order. *)
Theorem formatStyle_segments (style : obj) :
  formatStyle style
  = join (js ";")
      (map segment (filter (fun e => defined (snd e)) (entries style))) /\
  entries style = map snd (index_props style) ++ named_props style /\
  ascending (index_props style) /\
  Permutation (entries style) style /\
  ((forall k, In k (keys style) -> array_index k = None) ->
   entries style = style).
Proof.
  repeat split.
  - apply formatStyle_join.
  - apply ascending_index_props.
  - apply entries_perm.
  - apply entries_named.
Qed.

Section Laws.
Context {L : JSNumberLaws J}.

(** C1 (amended).  For every string [s] such that [parseStyle(s)] has no
    empty key (no part of [s] has a key made of white space only),
    parsing, formatting and parsing again gives a mapping with the same
    keys and the same coerced values in the same order of enumeration;
    its insertion order is the enumeration order of [parseStyle(s)],
    which is the insertion order of [parseStyle(s)] when no key is an
    array index. *)
Theorem parseStyle_formatStyle_roundtrip (s : jsstring) :
  ~ In [] (keys (parseStyle s)) ->
  entries (parseStyle (formatStyle (parseStyle s))) = entries (parseStyle s) /\
  parseStyle (formatStyle (parseStyle s)) = entries (parseStyle s) /\
  ((forall k, In k (keys (parseStyle s)) -> array_index k = None) ->
   parseStyle (formatStyle (parseStyle s)) = parseStyle s).
Proof.
  intros Hk.
  assert (HE : Forall codec_entry (entries (parseStyle s))).
  { apply Forall_forall. intros e He. apply (proj1 (In_entries _ _)) in He.
    pose proof (parseStyle_codec_entries s) as H.
    rewrite Forall_forall in H. auto. }
  assert (E : parseStyle (formatStyle (parseStyle s)) = entries (parseStyle s)).
  { rewrite formatStyle_join, filter_defined_codec by assumption.
    apply parseStyle_segments_of.
    - assumption.
    - intros k Hin ->. apply Hk.
      apply (Permutation_in _ (keys_entries_perm (parseStyle s))). assumption.
    - apply NoDup_keys_entries, NoDup_keys_parseStyle. }
  repeat split.
  - rewrite E. apply entries_entries.
  - exact E.
  - intros Hn. rewrite E. apply entries_named. assumption.
Qed.

Lemma codec_entry_not_empty_string (e : jsstring * style_value) :
  codec_entry e -> snd e <> VStr [].
Proof.
  intros [_ (_ & Hne & _)] E. rewrite E in Hne. apply Hne. reflexivity.
Qed.

(** The keys that reading a formatted mapping can store are keys of
    entries whose value has a non-empty string form. *)
Lemma keys_fold_parse_part_segments (F : obj) (acc : obj) (k : jsstring) :
  (forall e, In e F ->
     plain (fst e) = true /\ trimmed (fst e) = true /\
     plain (to_String (snd e)) = true) ->
  In k (keys (fold_left parse_part (map segment F) acc)) ->
  In k (keys acc) \/
  exists e, In e F /\ fst e = k /\ to_String (snd e) <> [].
Proof.
  revert acc. induction F as [|e F IH]; intros acc HF; simpl; auto.
  intros Hin. apply IH in Hin; [| intros; apply HF; simpl; auto].
  destruct Hin as [Hin | (e' & He' & Hk & Hv)].
  - apply keys_parse_part in Hin.
    destruct Hin as [Hin | (key & value & rest & Es & Hkey & Hval & ->)];
      auto.
    right. exists e. destruct (HF e (or_introl eq_refl)) as (Hp & Ht & Hvp).
    unfold plain in Hp, Hvp. apply andb_true_iff in Hp, Hvp.
    rewrite segment_join in Es. change (js "=") with [equals_sign] in Es.
    rewrite split_join in Es;
      [| discriminate | repeat constructor; tauto].
    injection Es as <- <- _.
    unfold trimmed in Ht. apply str_eqb_eq in Ht.
    repeat split; simpl; auto.
  - right. exists e'. simpl. auto.
Qed.

(** C9 (amended).  A mapping [m] with a key [k] whose value is the empty
    string: [formatStyle(m)] writes the segment [k=] for it; if [k] has
    no [=], [parseStyle] stores nothing for that segment; if moreover
    the keys of [m] are free of [;] and [=] and of white space at their
    ends and the string forms of its values are free of [;] and [=],
    [parseStyle(formatStyle(m))] lacks the key [k]; and in every case
    [parseStyle(formatStyle(m))] is not [m]. *)
Theorem empty_string_value_lost (m : obj) (k : jsstring) :
  In (k, VStr []) m ->
  In (k ++ js "=")
     (map segment (filter (fun e => defined (snd e)) (entries m))) /\
  (no_unit equals_sign k = true -> forall o, parse_part o (k ++ js "=") = o) /\
  (NoDup (keys m) ->
   (forall e, In e m ->
      plain (fst e) = true /\ trimmed (fst e) = true /\
      plain (to_String (snd e)) = true) ->
   ~ In k (keys (parseStyle (formatStyle m)))) /\
  entries (parseStyle (formatStyle m)) <> entries m.
Proof.
  intros Hin. repeat split.
  - apply in_map_iff. exists (k, VStr []). split.
    + unfold segment. simpl. reflexivity.
    + apply filter_In.
      split; [apply (proj2 (In_entries _ _)); assumption | reflexivity].
  - intros Hk o.
    change (k ++ js "=") with (join (js "=") [k; []]).
    rewrite parse_part_fields by (repeat constructor; assumption).
    rewrite andb_false_r. reflexivity.
  - intros Hnd Hm Hkin.
    set (F := filter (fun e => defined (snd e)) (entries m)) in *.
    assert (HF : forall e, In e F -> In e m).
    { intros e He. apply filter_In in He.
      apply (proj1 (In_entries _ _)). tauto. }
    rewrite formatStyle_join in Hkin. fold F in Hkin.
    rewrite parseStyle_join in Hkin.
    + apply keys_fold_parse_part_segments in Hkin; [| auto].
      destruct Hkin as [[] | ([k' v] & He & Hk & Hv)].
      simpl in Hk, Hv. subst k'.
      rewrite (NoDup_keys_unique m k v (VStr []) Hnd (HF _ He) Hin) in Hv.
      apply Hv. reflexivity.
    + apply Forall_forall. intros p Hp. apply in_map_iff in Hp.
      destruct Hp as (e & <- & He).
      destruct (Hm e (HF e He)) as (? & _ & ?).
      apply segment_no_semicolon; assumption.
  - intros E.
    assert (H : In (k, VStr []) (entries (parseStyle (formatStyle m)))).
    { rewrite E. apply (proj2 (In_entries _ _)). assumption. }
    apply (proj1 (In_entries _ _)) in H.
    pose proof (parseStyle_codec_entries (formatStyle m)) as Hc.
    rewrite Forall_forall in Hc.
    apply (codec_entry_not_empty_string _ (Hc _ H)). reflexivity.
Qed.

End Laws.
End CodecClaims.

(** *** The codec on concrete strings *)

(** C1, counterexample.  The key of [" =true"] is a single space: it is
    stored under the empty name, written as [=true] and then dropped.
    And the insertion order is not kept when a key is an array index:
    [0] is inserted after [b] by the first parse and before it by the
    second. *)
Lemma roundtrip_fails_on_blank_key :
  (parseStyle (J := IntegerNumber) (js " =true") = [([], VBool true)] /\
   formatStyle (parseStyle (J := IntegerNumber) (js " =true")) = js "=true" /\
   parseStyle (J := IntegerNumber) (formatStyle (parseStyle (js " =true")))
   = [] /\
   entries (parseStyle (J := IntegerNumber)
              (formatStyle (parseStyle (js " =true"))))
   <> entries (parseStyle (js " =true"))) /\
  parseStyle (J := IntegerNumber) (js "b=true;0=false")
  = [(js "b", VBool true); (js "0", VBool false)] /\
  parseStyle (J := IntegerNumber)
    (formatStyle (parseStyle (js "b=true;0=false")))
  = [(js "0", VBool false); (js "b", VBool true)].
Proof.
  repeat split. vm_compute. discriminate.
Qed.

(** C1, witness: a string with an array-index key, a padded key and a
    number written with leading zeros. *)
Lemma parseStyle_formatStyle_roundtrip_witness :
  ~ In [] (keys (parseStyle (J := IntegerNumber) (js "10=x;b=1; c = 007 ;2=true"))) /\
  entries (parseStyle (J := IntegerNumber)
             (formatStyle (parseStyle (js "10=x;b=1; c = 007 ;2=true"))))
  = entries (parseStyle (js "10=x;b=1; c = 007 ;2=true")).
Proof.
  assert (H : ~ In [] (keys (parseStyle (J := IntegerNumber)
                               (js "10=x;b=1; c = 007 ;2=true")))).
  { vm_compute. intuition discriminate. }
  split; [exact H|].
  exact (proj1 (parseStyle_formatStyle_roundtrip
                  (L := IntegerNumber_laws) _ H)).
Defined.

(** C2, counterexample: [k=a=b] maps [k] to ["a"], not to ["a=b"]. *)
Lemma second_equals_truncates_value :
  parseStyle (J := IntegerNumber) (js "k=a=b") = [(js "k", VStr (js "a"))] /\
  parseStyle (J := IntegerNumber) (js "k=a=b") <> [(js "k", VStr (js "a=b"))].
Proof.
  split; [reflexivity|]. vm_compute. discriminate.
Qed.

(** C2, witness: the three fields of [k=a=b]. *)
Lemma parseStyle_splits_fields_witness :
  Forall (fun f => no_unit equals_sign f = true) [js "k"; js "a"; js "b"] /\
  parse_part (J := IntegerNumber) [] (js "k=a=b") = [(js "k", VStr (js "a"))].
Proof.
  assert (H : Forall (fun f => no_unit equals_sign f = true)
                [js "k"; js "a"; js "b"]) by (repeat constructor).
  split; [exact H|].
  exact (proj1 (proj2 (proj2 (parseStyle_splits_fields (J := IntegerNumber))))
           [] (js "k") (js "a") [js "b"] H).
Defined.

(** C3, counterexample: a value field with white space around it is
    not stored unchanged, and it is coerced although it is not one of
    the literals.  [k= x ] stores ["x"]; [k= true ] stores the boolean;
    [k= ], whose value field is a single space, stores the number 0. *)
Lemma padded_value_not_stored_unchanged :
  parseStyle (J := IntegerNumber) (js "k= x ") = [(js "k", VStr (js "x"))] /\
  parseStyle (J := IntegerNumber) (js "k= x ") <> [(js "k", VStr (js " x "))] /\
  js " true " <> js "true" /\
  parseStyle (J := IntegerNumber) (js "k= true ") = [(js "k", VBool true)] /\
  parseStyle (J := IntegerNumber) (js "k= ") = [(js "k", VNum (Some 0))].
Proof.
  split; [reflexivity|]. split; [vm_compute; discriminate|].
  split; [vm_compute; discriminate|]. split; reflexivity.
Qed.

(** C3, witness: the segment [ k = 12 ] stores the number 12 under
    [k]. *)
Lemma parseStyleValue_coercion_witness :
  (Forall (fun f => no_unit equals_sign f = true) [js " k "; js " 12 "] /\
   js " k " <> [] /\ js " 12 " <> [] /\ trim (js " k ") <> js "__proto__") /\
  In (js "k", VNum (Some 12))
     (parse_part (J := IntegerNumber) [] (js " k = 12 ")).
Proof.
  assert (H : Forall (fun f => no_unit equals_sign f = true)
                [js " k "; js " 12 "]) by (repeat constructor).
  assert (Hk : js " k " <> []) by discriminate.
  assert (Hv : js " 12 " <> []) by discriminate.
  assert (Hp : trim (js " k ") <> js "__proto__")
    by (vm_compute; discriminate).
  split; [repeat split; assumption|].
  exact (proj1 (proj1 (proj2 (proj2 (proj2 (proj2
                  (parseStyleValue_coercion (J := IntegerNumber))))))
                  [] (js " k ") (js " 12 ") [] H Hk Hv Hp)).
Defined.

(** C4, counterexample: the key ["1"], inserted after ["b"], is written
    before it. *)
Lemma formatStyle_index_key_first :
  formatStyle (J := IntegerNumber) [(js "b", VBool true); (js "1", VBool false)]
  = js "1=false;b=true" /\
  formatStyle (J := IntegerNumber) [(js "b", VBool true); (js "1", VBool false)]
  <> js "b=true;1=false".
Proof.
  split; [reflexivity|]. vm_compute. discriminate.
Qed.

(** C4, witness: a mapping without array-index keys is written in
    insertion order. *)
Lemma formatStyle_segments_witness :
  (forall k,
     In k (keys (J := IntegerNumber)
             [(js "fillColor", VStr (js "#fff")); (js "rounded", VBool true)]) ->
     array_index k = None) /\
  entries (J := IntegerNumber)
    [(js "fillColor", VStr (js "#fff")); (js "rounded", VBool true)]
  = [(js "fillColor", VStr (js "#fff")); (js "rounded", VBool true)].
Proof.
  assert (H : forall k,
             In k (keys (J := IntegerNumber)
                     [(js "fillColor", VStr (js "#fff"));
                      (js "rounded", VBool true)]) ->
             array_index k = None).
  { simpl. intros k [<- | [<- | []]]; reflexivity. }
  split; [exact H|].
  exact (proj2 (proj2 (proj2 (proj2 (formatStyle_segments _)))) H).
Defined.

(** C9, counterexample.  The segment of the key [" a"] stores its value
    under ["a"], the key whose empty value was dropped; so does a value
    that contains [;a=1]; and for the key ["a=b"] the segment [a=b=]
    is not dropped, it stores ["b"] under ["a"]. *)
Lemma empty_string_key_restored :
  (formatStyle (J := IntegerNumber) [(js "a", VStr []); (js " a", VBool true)]
   = js "a=; a=true" /\
   parseStyle (J := IntegerNumber)
     (formatStyle [(js "a", VStr []); (js " a", VBool true)])
   = [(js "a", VBool true)]) /\
  (formatStyle (J := IntegerNumber)
     [(js "a", VStr []); (js "b", VStr (js "x;a=1"))]
   = js "a=;b=x;a=1" /\
   parseStyle (J := IntegerNumber)
     (formatStyle [(js "a", VStr []); (js "b", VStr (js "x;a=1"))])
   = [(js "b", VStr (js "x")); (js "a", VNum (Some 1))]) /\
  (formatStyle (J := IntegerNumber) [(js "a=b", VStr [])] = js "a=b=" /\
   parse_part (J := IntegerNumber) [] (js "a=b=")
   = [(js "a", VStr (js "b"))]).
Proof.
  repeat split.
Qed.

(** C9, witness: the key [a], whose value is the empty string, is lost. *)
Lemma empty_string_value_lost_witness :
  In (js "a", VStr [])
     [(js "a", VStr []); (js "b", VBool true)] /\
  ~ In (js "a")
      (keys (parseStyle (J := IntegerNumber)
               (formatStyle [(js "a", VStr []); (js "b", VBool true)]))).
Proof.
  assert (Hin : In (js "a", VStr (J := IntegerNumber) [])
                  [(js "a", VStr []); (js "b", VBool true)])
    by (simpl; auto).
  split; [exact Hin|].
  refine (proj1 (proj2 (proj2
            (empty_string_value_lost (L := IntegerNumber_laws) _ _ Hin)))
            _ _).
  - repeat constructor; simpl; intuition discriminate.
  - simpl. intros e [<- | [<- | []]]; repeat split.
Defined.

(** ** Import *)

Section ImportPasses.
Context {J : JSNumber}.
Local Open Scope nat_scope.

Lemma is_vertex_true (c : GraphCell) : is_vertex c = true -> type c = vertex.
Proof. unfold is_vertex. destruct (type c); congruence. Qed.

Lemma is_vertex_false (c : GraphCell) : is_vertex c = false -> type c = edge.
Proof. unfold is_vertex. destruct (type c); congruence. Qed.


Lemma numbered_cons {A : Type} (n : handle) (a : A) (l : list A) :
  numbered n (a :: l) = (n, a) :: numbered (S n) l.
Proof. reflexivity. Qed.

Lemma numbered_map {A B : Type} (f : A -> B) (n : handle) (l : list A) :
  numbered n (map f l) = map (fun p => (fst p, f (snd p))) (numbered n l).
Proof.
  revert n. induction l as [|a l IH]; intros n; [reflexivity|].
  simpl map at 1. rewrite !numbered_cons, IH. reflexivity.
Qed.

Lemma In_numbered {A : Type} (n h : handle) (a : A) (l : list A) :
  In (h, a) (numbered n l) -> n <= h /\ In a l.
Proof.
  revert n. induction l as [|b l IH]; intros n; [intros []|].
  rewrite numbered_cons. intros [E | H].
  - injection E as <- <-. simpl. auto.
  - apply IH in H. simpl. destruct H. auto with arith.
Qed.

Lemma numbered_In {A : Type} (n : handle) (a : A) (l : list A) :
  In a l -> exists h, In (h, a) (numbered n l).
Proof.
  revert n. induction l as [|b l IH]; intros n; [intros []|].
  rewrite numbered_cons. intros [<- | H].
  - exists n. simpl. auto.
  - destruct (IH (S n) H) as [h Hh]. exists h. simpl. auto.
Qed.

Lemma with_children_id (g : mxGraph) :
  with_children g (children g ++ []) (next_handle g + 0) = g.
Proof.
  destruct g. unfold with_children. simpl.
  rewrite app_nil_r, Nat.add_0_r. reflexivity.
Qed.

(** *** Pass 1 *)

Lemma import_vertex_vertex (p : handle) (g : mxGraph) (m : IdMap)
    (cellData : GraphCell) :
  type cellData = vertex ->
  import_vertex p (g, m) cellData
  = (with_children g (children g ++ [(next_handle g, vertex_of p cellData)])
       (S (next_handle g)),
     idMap_set m (id cellData) (next_handle g)).
Proof. intros E. unfold import_vertex. rewrite E. reflexivity. Qed.

Lemma import_vertex_edge (p : handle) (st : mxGraph * IdMap)
    (cellData : GraphCell) :
  type cellData = edge -> import_vertex p st cellData = st.
Proof. intros E. unfold import_vertex. rewrite E. reflexivity. Qed.

(** Pass 1 appends one vertex for each vertex element, in the order of
    the elements, and binds each id to the handle of its vertex. *)
Lemma pass1_fold (p : handle) (cs : list GraphCell) (g : mxGraph) (m : IdMap) :
  fold_left (import_vertex p) cs (g, m)
  = (with_children g
       (children g
          ++ numbered (next_handle g) (map (vertex_of p) (filter is_vertex cs)))
       (next_handle g + length (filter is_vertex cs)),
     fold_left (fun m hc => idMap_set m (id (snd hc)) (fst hc))
       (numbered (next_handle g) (filter is_vertex cs)) m).
Proof.
  revert g m. induction cs as [|c cs IH]; intros g m.
  - simpl. rewrite with_children_id. reflexivity.
  - cbn [fold_left filter]. destruct (is_vertex c) eqn:Ev.
    + rewrite import_vertex_vertex by (apply is_vertex_true, Ev).
      rewrite IH.
      cbn [map length]. rewrite !numbered_cons. cbn [fold_left fst snd].
      unfold with_children. cbn [children next_handle root root_id
        cell_member view_scale view_translate update_level].
      rewrite <- app_assoc, Nat.add_succ_r. reflexivity.
    + rewrite import_vertex_edge by (apply is_vertex_false, Ev). apply IH.
Qed.

Lemma idMap_wf_set (m : IdMap) (k : jsstring) (c : handle) :
  idMap_wf m -> idMap_wf (idMap_set m k c).
Proof.
  unfold idMap_wf, idMap_set. intros H.
  destruct (str_eqb k (js "__proto__")) eqn:E; simpl; [exact H|].
  intros e [<- | He]; [|auto]. simpl. apply str_eqb_neq. assumption.
Qed.

Lemma idMap_wf_find (m : IdMap) :
  idMap_wf m ->
  find (fun e => str_eqb (js "__proto__") (fst e)) (own m) = None.
Proof.
  unfold idMap_wf. induction (own m) as [|e l IH]; intros H; [reflexivity|].
  cbn [find].
  destruct (str_eqb (js "__proto__") (fst e)) eqn:E.
  - apply str_eqb_eq in E. exfalso. apply (H e); simpl; auto.
  - apply IH. intros e' He'. apply H. simpl. auto.
Qed.

(** The binding of a name is what was last assigned under it. *)
Lemma idMap_cell_set (m : IdMap) (k k' : jsstring) (c : handle) :
  idMap_cell (idMap_set m k c) k'
  = if str_eqb k' k then Some c else idMap_cell m k'.
Proof.
  unfold idMap_cell, idMap_set.
  destruct (str_eqb k (js "__proto__")) eqn:Ek.
  - apply str_eqb_eq in Ek. subst k. simpl.
    destruct (str_eqb k' (js "__proto__")); reflexivity.
  - simpl. destruct (str_eqb k' k) eqn:Ekk.
    + apply str_eqb_eq in Ekk. subst k'. rewrite Ek. reflexivity.
    + reflexivity.
Qed.

(** A bound name is read as its cell. *)
Lemma idMap_get_cell (g : mxGraph) (m : IdMap) (k : jsstring) (h : handle) :
  idMap_wf m -> idMap_cell m k = Some h -> idMap_get g m k = Some (RCell h).
Proof.
  unfold idMap_cell, idMap_get. intros Hwf.
  destruct (str_eqb k (js "__proto__")) eqn:Ek.
  - apply str_eqb_eq in Ek. subst k. rewrite (idMap_wf_find m Hwf).
    intros ->. reflexivity.
  - destruct (find (fun e => str_eqb k (fst e)) (own m)); [|discriminate].
    intros E. injection E as <-. reflexivity.
Qed.

Lemma fold_idMap_set_wf (l : list (handle * GraphCell)) (m : IdMap) :
  idMap_wf m ->
  idMap_wf (fold_left (fun m hc => idMap_set m (id (snd hc)) (fst hc)) l m).
Proof.
  revert m. induction l as [|hc l IH]; intros m H; simpl; auto.
  apply IH, idMap_wf_set, H.
Qed.

(** After the bindings of [l], a name is bound to the handle of an
    element of [l] with that id, or as it was before. *)
Lemma fold_idMap_set_cell (l : list (handle * GraphCell)) (m : IdMap)
    (k : jsstring) (h : handle) :
  idMap_cell (fold_left (fun m hc => idMap_set m (id (snd hc)) (fst hc)) l m) k
  = Some h ->
  idMap_cell m k = Some h \/ exists c, In (h, c) l /\ id c = k.
Proof.
  revert m. induction l as [|[h' c'] l IH]; intros m; simpl; auto.
  intros H. apply IH in H. destruct H as [H | (c & Hc & Ek)].
  - rewrite idMap_cell_set in H. simpl in H.
    destruct (str_eqb k (id c')) eqn:E; auto.
    apply str_eqb_eq in E. injection H as <-. right. exists c'. auto.
  - right. exists c. auto.
Qed.

(** Every id of [l] is bound afterwards. *)
Lemma fold_idMap_set_bound (l : list (handle * GraphCell)) (m : IdMap)
    (k : jsstring) :
  idMap_cell m k <> None \/ (exists hc, In hc l /\ id (snd hc) = k) ->
  idMap_cell (fold_left (fun m hc => idMap_set m (id (snd hc)) (fst hc)) l m) k
  <> None.
Proof.
  revert m. induction l as [|hc l IH]; intros m; simpl.
  - intros [H | (hc & [] & _)]. exact H.
  - intros H. apply IH.
    rewrite idMap_cell_set.
    destruct (str_eqb k (id (snd hc))) eqn:E; [left; discriminate|].
    apply str_eqb_neq in E.
    destruct H as [H | (hc' & [<- | Hin] & Ek)];
      [auto | congruence | right; exists hc'; auto].
Qed.

(** Without an element named [__proto__] the prototype stays, and the
    own properties are the ids of the elements. *)
Lemma fold_idMap_set_plain (l : list (handle * GraphCell)) (m : IdMap) :
  (forall hc, In hc l -> id (snd hc) <> js "__proto__") ->
  proto (fold_left (fun m hc => idMap_set m (id (snd hc)) (fst hc)) l m)
  = proto m /\
  forall k,
    (forall hc, In hc l -> id (snd hc) <> k) ->
    find (fun e => str_eqb k (fst e))
      (own (fold_left (fun m hc => idMap_set m (id (snd hc)) (fst hc)) l m))
    = find (fun e => str_eqb k (fst e)) (own m).
Proof.
  revert m. induction l as [|hc l IH]; intros m Hl; simpl; auto.
  destruct (IH (idMap_set m (id (snd hc)) (fst hc))) as [IH1 IH2].
  { intros. apply Hl. simpl. auto. }
  assert (Hp : str_eqb (id (snd hc)) (js "__proto__") = false).
  { apply str_eqb_neq, Hl. simpl. auto. }
  split.
  - rewrite IH1. unfold idMap_set. rewrite Hp. reflexivity.
  - intros k Hk. rewrite IH2 by (intros; apply Hk; simpl; auto).
    unfold idMap_set. rewrite Hp. simpl.
    assert (E : str_eqb k (id (snd hc)) = false).
    { apply str_eqb_neq. intros ->. apply (Hk hc); simpl; auto. }
    rewrite E. reflexivity.
Qed.

(** *** Pass 2 *)

Lemma edge_terminals_ext (g g' : mxGraph) (m : IdMap) (c : GraphCell) :
  cell_member g' = cell_member g ->
  edge_terminals g' m c = edge_terminals g m c.
Proof.
  intros E. unfold edge_terminals, idMap_get. rewrite E. reflexivity.
Qed.

Lemma created_edges_ext (g g' : mxGraph) (m : IdMap) (p : handle)
    (cs : list GraphCell) :
  cell_member g' = cell_member g ->
  created_edges g' m p cs = created_edges g m p cs.
Proof.
  intros E. unfold created_edges. induction cs as [|c cs IH]; simpl; auto.
  rewrite IH, (edge_terminals_ext g g' m c E). reflexivity.
Qed.

(** Pass 2 appends one edge for each element that passes the tests, in
    the order of the elements. *)
Lemma pass2_fold (p : handle) (m : IdMap) (cs : list GraphCell) (g : mxGraph) :
  fold_left (import_edge p m) cs g
  = with_children g
      (children g ++ numbered (next_handle g) (created_edges g m p cs))
      (next_handle g + length (created_edges g m p cs)).
Proof.
  revert g. induction cs as [|c cs IH]; intros g.
  - simpl. rewrite with_children_id. reflexivity.
  - cbn [fold_left]. rewrite IH. unfold import_edge.
    unfold created_edges at 3 4. cbn [flat_map]. fold (created_edges g m p cs).
    destruct (edge_terminals g m c) as [[s t]|] eqn:E.
    + cbn [insertEdge graph_insertEdge fst app length].
      rewrite numbered_cons.
      rewrite (created_edges_ext g _ m p cs) by reflexivity.
      unfold with_children. cbn [children next_handle root root_id
        cell_member view_scale view_translate update_level].
      rewrite <- app_assoc, Nat.add_succ_r. reflexivity.
    + reflexivity.
Qed.




(** *** The whole import *)

Lemma removeCells_all (g : mxGraph) :
  children (graph_removeCells g (map fst (children g))) = [].
Proof.
  unfold graph_removeCells. simpl.
  assert (H : forall (l : list (nat * mxCell)) (l' : list nat),
             (forall c, In c l -> In (fst c) l') ->
             filter (fun c => negb (existsb (Nat.eqb (fst c)) l')) l = []).
  { induction l as [|c l IH]; intros l' Hl; [reflexivity|]. cbn [filter].
    assert (E : existsb (Nat.eqb (fst c)) l' = true).
    { apply existsb_exists. exists (fst c). split.
      - apply Hl. simpl. auto.
      - apply Nat.eqb_refl. }
    rewrite E. cbn [negb]. apply IH. intros. apply Hl. simpl. auto. }
  apply H. intros c Hc. apply in_map. assumption.
Qed.

(** The live model after an import: what was there (nothing, after
    clearing), then the vertices of pass 1, then the edges of pass 2. *)
Lemma importGraphFromJSON_children (g : mxGraph) (data : GraphData)
    (clearExisting : bool) :
  children (importGraphFromJSON g data clearExisting)
  = (if clearExisting then [] else children g)
    ++ numbered (next_handle g)
         (map (vertex_of (root g)) (filter is_vertex (cells data)))
    ++ numbered (next_handle g + length (filter is_vertex (cells data)))
         (created_edges g (pass1_idMap (next_handle g) (cells data)) (root g)
            (cells data)).
Proof.
  unfold importGraphFromJSON.
  set (g1 := if clearExisting
             then graph_removeCells (beginUpdate g)
                    (map fst (children (beginUpdate g)))
             else beginUpdate g).
  assert (Hc : children g1 = if clearExisting then [] else children g).
  { unfold g1. destruct clearExisting; [apply removeCells_all | reflexivity]. }
  assert (Hn : next_handle g1 = next_handle g)
    by (unfold g1; destruct clearExisting; reflexivity).
  assert (Hr : root g1 = root g)
    by (unfold g1; destruct clearExisting; reflexivity).
  assert (Hm : cell_member g1 = cell_member g)
    by (unfold g1; destruct clearExisting; reflexivity).
  unfold getDefaultParent. rewrite pass1_fold, pass2_fold.
  fold (pass1_idMap (next_handle g1) (cells data)).
  rewrite (created_edges_ext g) by (simpl; exact Hm).
  destruct (viewport data); simpl; rewrite Hc, Hn, Hr, <- app_assoc;
    reflexivity.
Qed.

Lemma importGraphFromJSON_next_handle (g : mxGraph) (data : GraphData)
    (clearExisting : bool) :
  next_handle (importGraphFromJSON g data clearExisting)
  = next_handle g + length (filter is_vertex (cells data))
    + length (created_edges g (pass1_idMap (next_handle g) (cells data))
                (root g) (cells data)).
Proof.
  unfold importGraphFromJSON.
  set (g1 := if clearExisting
             then graph_removeCells (beginUpdate g)
                    (map fst (children (beginUpdate g)))
             else beginUpdate g).
  assert (Hn : next_handle g1 = next_handle g)
    by (unfold g1; destruct clearExisting; reflexivity).
  assert (Hr : root g1 = root g)
    by (unfold g1; destruct clearExisting; reflexivity).
  assert (Hm : cell_member g1 = cell_member g)
    by (unfold g1; destruct clearExisting; reflexivity).
  unfold getDefaultParent. rewrite pass1_fold, pass2_fold.
  fold (pass1_idMap (next_handle g1) (cells data)).
  rewrite (created_edges_ext g) by (simpl; exact Hm).
  destruct (viewport data); simpl; rewrite Hn, Hr; reflexivity.
Qed.

Lemma numbered_handles {A : Type} (n : handle) (l : list A) :
  map fst (numbered n l) = seq n (length l).
Proof.
  revert n. induction l as [|a l IH]; intros n; [reflexivity|].
  rewrite numbered_cons. simpl. rewrite IH. reflexivity.
Qed.

(** The cells of the live model keep distinct handles through an
    import. *)
Lemma importGraphFromJSON_wf (g : mxGraph) (data : GraphData)
    (clearExisting : bool) :
  model_wf g -> model_wf (importGraphFromJSON g data clearExisting).
Proof.
  intros [Hnd Hlt]. unfold model_wf.
  rewrite importGraphFromJSON_children, importGraphFromJSON_next_handle.
  rewrite !map_app, !numbered_handles, length_map.
  set (n := next_handle g).
  set (a := length (filter is_vertex (cells data))).
  set (b := length (created_edges g (pass1_idMap n (cells data)) (root g)
                      (cells data))).
  assert (Hbase : NoDup (map fst (if clearExisting then [] else children g)) /\
                  forall h, In h (map fst (if clearExisting then []
                                            else children g)) -> h < n).
  { destruct clearExisting; simpl; [split; [constructor | tauto] | auto]. }
  destruct Hbase as [Hb1 Hb2]. split.
  - apply NoDup_app; [assumption | |].
    + apply NoDup_app; [apply seq_NoDup | apply seq_NoDup |].
      intros h Hh1 Hh2. apply in_seq in Hh1, Hh2. lia.
    + intros h Hh1 Hh2. apply Hb2 in Hh1. apply in_app_or in Hh2.
      destruct Hh2 as [Hh2 | Hh2]; apply in_seq in Hh2; lia.
  - intros h Hh. apply in_app_or in Hh. destruct Hh as [Hh | Hh].
    + apply Hb2 in Hh. lia.
    + apply in_app_or in Hh.
      destruct Hh as [Hh | Hh]; apply in_seq in Hh; lia.
Qed.

End ImportPasses.

(** ** The statements about import *)

(** Membership in the live model after an import, which is what was
    kept, then the vertices, then the edges. *)
Ltac among_vertices := apply in_or_app; right; apply in_or_app; left.

Section ImportClaims.
Context {J : JSNumber}.
Local Open Scope nat_scope.

Lemma idMap_cell_empty (k : jsstring) : idMap_cell idMap_empty k = None.
Proof.
  unfold idMap_cell. simpl. destruct (str_eqb k (js "__proto__")); reflexivity.
Qed.

Lemma pass1_idMap_wf (n : handle) (cs : list GraphCell) :
  idMap_wf (pass1_idMap n cs).
Proof. apply fold_idMap_set_wf. intros e []. Qed.

(** The id of a vertex element is bound to the handle of a vertex
    element with that id. *)
Lemma pass1_idMap_vertex (n : handle) (cs : list GraphCell) (v : GraphCell) :
  In v cs -> type v = vertex ->
  exists h c,
    idMap_cell (pass1_idMap n cs) (id v) = Some h /\
    In (h, c) (numbered n (filter is_vertex cs)) /\ id c = id v.
Proof.
  intros Hin Ht.
  assert (Hv : In v (filter is_vertex cs)).
  { apply filter_In. split; [assumption|]. unfold is_vertex. rewrite Ht.
    reflexivity. }
  destruct (numbered_In n v _ Hv) as [h0 Hh0].
  destruct (idMap_cell (pass1_idMap n cs) (id v)) as [h|] eqn:E.
  - exists h. unfold pass1_idMap in E.
    apply fold_idMap_set_cell in E. destruct E as [E | (c & Hc & Ec)].
    + rewrite idMap_cell_empty in E. discriminate.
    + exists c. auto.
  - exfalso. revert E. apply fold_idMap_set_bound.
    right. exists (h0, v). auto.
Qed.

(** A handle bound in [idMap] is the handle of a vertex of pass 1. *)
Lemma pass1_idMap_new (n : handle) (cs : list GraphCell) (k : jsstring)
    (h : handle) :
  idMap_cell (pass1_idMap n cs) k = Some h ->
  exists c, In (h, c) (numbered n (filter is_vertex cs)) /\ id c = k.
Proof.
  intros E. unfold pass1_idMap in E. apply fold_idMap_set_cell in E.
  destruct E as [E | H]; [|exact H].
  rewrite idMap_cell_empty in E. discriminate.
Qed.

(** When no vertex element is named [__proto__], a name that is not the
    id of a vertex element is read as an inherited member or not at all. *)
Lemma pass1_idMap_get_other (g : mxGraph) (n : handle) (cs : list GraphCell)
    (k : jsstring) :
  (forall v, In v cs -> type v = vertex -> id v <> js "__proto__") ->
  (forall v, In v cs -> type v = vertex -> id v <> k) ->
  idMap_get g (pass1_idMap n cs) k
  = if inherited_name k then Some (RForeign k) else None.
Proof.
  intros Hp Hk.
  assert (Hv : forall (P : jsstring -> Prop),
             (forall v, In v cs -> type v = vertex -> P (id v)) ->
             forall hc, In hc (numbered n (filter is_vertex cs)) ->
                        P (id (snd hc))).
  { intros P HP [h c] Hin. apply In_numbered in Hin. destruct Hin as [_ Hin].
    apply filter_In in Hin. destruct Hin as [Hin Hv]. simpl.
    apply HP; [assumption | apply is_vertex_true, Hv]. }
  destruct (fold_idMap_set_plain (numbered n (filter is_vertex cs))
              idMap_empty (Hv (fun i => i <> js "__proto__") Hp))
    as [E1 E2].
  unfold idMap_get. fold (pass1_idMap n cs) in E1, E2.
  rewrite (E2 k (Hv (fun i => i <> k) Hk)), E1. reflexivity.
Qed.

(** When no vertex element is named [__proto__], a cell read from
    [idMap] is a vertex that pass 1 created for an element of that id. *)
Lemma pass1_idMap_get_cell (g : mxGraph) (n : handle) (cs : list GraphCell)
    (k : jsstring) (h : handle) :
  (forall v, In v cs -> type v = vertex -> id v <> js "__proto__") ->
  idMap_get g (pass1_idMap n cs) k = Some (RCell h) ->
  exists c, In (h, c) (numbered n (filter is_vertex cs)) /\ id c = k.
Proof.
  intros Hp E.
  destruct (idMap_cell (pass1_idMap n cs) k) as [h'|] eqn:Ec.
  - rewrite (idMap_get_cell g _ k h' (pass1_idMap_wf n cs) Ec) in E.
    injection E as <-. apply pass1_idMap_new. assumption.
  - exfalso.
    assert (Hk : forall v, In v cs -> type v = vertex -> id v <> k).
    { intros v Hin Ht Ek.
      destruct (pass1_idMap_vertex n cs v Hin Ht) as (h' & c & E' & _).
      congruence. }
    rewrite (pass1_idMap_get_other g n cs k Hp Hk) in E.
    destruct (inherited_name k); discriminate.
Qed.

(** An edge element for which a test of pass 2 fails creates nothing. *)
Lemma edge_terminals_skipped (g : mxGraph) (m : IdMap) (e : GraphCell) :
  truthy_opt (source e) = false \/ truthy_opt (target e) = false \/
  idMap_get g m (or_empty (source e)) = None \/
  idMap_get g m (or_empty (target e)) = None ->
  edge_terminals g m e = None.
Proof.
  unfold edge_terminals. destruct (type e); [reflexivity|].
  intros [H | [H | [H | H]]]; rewrite H; simpl;
    try rewrite andb_false_r; try reflexivity.
  - destruct (truthy_opt (source e) && truthy_opt (target e)); reflexivity.
  - destruct (truthy_opt (source e) && truthy_opt (target e)); [|reflexivity].
    destruct (idMap_get g m (or_empty (source e))); reflexivity.
Qed.


(** Outside of the inherited names, the tests of pass 2 do what the
    specification says: an edge element whose source or target is
    absent, empty, or names neither a vertex element nor an inherited
    member creates nothing; the cells that the created edges are
    connected to are vertices created by this import. *)
Lemma import_skips_unresolved (g : mxGraph) (data : GraphData)
    (e : GraphCell) :
  (forall v, In v (cells data) -> type v = vertex ->
             id v <> js "__proto__") ->
  (source e = None \/ target e = None \/
   (exists k, (source e = Some k \/ target e = Some k) /\
              (k = [] \/
               (inherited_name k = false /\
                forall v, In v (cells data) -> type v = vertex ->
                          id v <> k))) ->
   edge_terminals g (pass1_idMap (next_handle g) (cells data)) e = None) /\
  (forall s t h,
     edge_terminals g (pass1_idMap (next_handle g) (cells data)) e
     = Some (s, t) ->
     s = RCell h \/ t = RCell h ->
     next_handle g <= h /\
     exists v, In v (cells data) /\ type v = vertex /\
               In (h, vertex_of (root g) v)
                  (children (importGraphFromJSON g data false)) /\
               In (h, vertex_of (root g) v)
                  (children (importGraphFromJSON g data true))).
Proof.
  intros Hp. split.
  - intros H. apply edge_terminals_skipped.
    destruct H as [-> | [-> | (k & Hk & Hr)]]; auto.
    assert (Hget : idMap_get g (pass1_idMap (next_handle g) (cells data)) k
                   = None \/ k = []).
    { destruct Hr as [-> | [Hi Hv]]; auto. left.
      rewrite pass1_idMap_get_other by assumption. rewrite Hi. reflexivity. }
    destruct Hk as [E | E]; rewrite E; simpl;
      destruct Hget as [-> | ->]; auto.
  - intros s t h Et Hh.
    assert (Hg : exists k,
               idMap_get g (pass1_idMap (next_handle g) (cells data)) k
               = Some (RCell h)).
    { unfold edge_terminals in Et. destruct (type e); [discriminate|].
      destruct (truthy_opt (source e) && truthy_opt (target e));
        [|discriminate].
      destruct (idMap_get g _ (or_empty (source e))) as [s'|] eqn:Es;
        [|discriminate].
      destruct (idMap_get g _ (or_empty (target e))) as [t'|] eqn:Et';
        [|discriminate].
      injection Et as <- <-. destruct Hh as [-> | ->]; eauto. }
    destruct Hg as [k Hg].
    destruct (pass1_idMap_get_cell g _ _ k h Hp Hg) as (v & Hv & _).
    destruct (In_numbered _ _ _ _ Hv) as [Hn Hf].
    apply filter_In in Hf. destruct Hf as [Hin Ht].
    split; [assumption|]. exists v.
    rewrite !importGraphFromJSON_children, numbered_map.
    repeat split; auto.
    + apply is_vertex_true, Ht.
    + among_vertices. apply in_map_iff. exists (h, v). auto.
    + among_vertices. apply in_map_iff. exists (h, v). auto.
Qed.

End ImportClaims.

Section InheritedMembers.
Context {J : JSNumber}.
Local Open Scope nat_scope.

(** Export lists the root-level cells that are vertices or edges, in
    their order. *)
Lemma exportGraphToJSON_cells (g : mxGraph) :
  cells (exportGraphToJSON g)
  = flat_map (fun c : handle * mxCell =>
                match cellToJSON g (Some (snd c)) with
                       | Some graphCell => [graphCell]
                       | None => []
                       end) (children g).
Proof.
  unfold exportGraphToJSON. simpl.
  assert (H : forall (l : list (handle * mxCell)) acc,
             fold_left
               (fun cells cell =>
                  match cellToJSON g (Some (snd cell)) with
                  | Some graphCell => cells ++ [graphCell]
                  | None => cells
                  end) l acc
             = acc ++ flat_map (fun c : handle * mxCell =>
                match cellToJSON g (Some (snd c)) with
                                         | Some graphCell => [graphCell]
                                         | None => []
                                         end) l).
  { induction l as [|c l IH]; intros acc; cbn [fold_left flat_map].
    - rewrite app_nil_r. reflexivity.
    - rewrite IH. destruct (cellToJSON g (Some (snd c))).
      + rewrite <- app_assoc. reflexivity.
      + reflexivity. }
  apply (H (children g) []).
Qed.

(** C6 (code defect).  [idMap] is an ordinary object, so [idMap[k]] also
    answers for the names inherited from [Object.prototype].  On the
    Document whose only element is an edge from ["constructor"] to
    ["toString"], [importGraphFromJSON] does not skip the edge: it calls
    [graph.insertEdge] with the two inherited functions as terminals.
    Apart from the inherited names the tests are as specified: the live
    model after an import is what was kept, the vertices, and the edges
    for which [edge_terminals] answers, and a later export lists the
    cells of that live model; an edge element whose source or target is
    absent, empty or names neither a vertex element nor an inherited
    member creates nothing. *)
Theorem inherited_member_becomes_terminal :
  (forall g clearExisting,
     children
       (importGraphFromJSON g
          {| cells := [edge_between (js "e1") (js "constructor") (js "toString")];
             viewport := None |} clearExisting)
     = (if clearExisting then [] else children g)
       ++ [(next_handle g,
            edge_cell (root g) (js "e1") []
              (RForeign (js "constructor")) (RForeign (js "toString")) [])]) /\
  (forall g data clearExisting,
     children (importGraphFromJSON g data clearExisting)
     = (if clearExisting then [] else children g)
       ++ numbered (next_handle g)
            (map (vertex_of (root g)) (filter is_vertex (cells data)))
       ++ numbered (next_handle g + length (filter is_vertex (cells data)))
            (created_edges g (pass1_idMap (next_handle g) (cells data))
               (root g) (cells data))) /\
  (forall g,
     cells (exportGraphToJSON g)
     = flat_map (fun c : handle * mxCell =>
                match cellToJSON g (Some (snd c)) with
                          | Some graphCell => [graphCell]
                          | None => []
                          end) (children g)) /\
  (forall g data e,
     (forall v, In v (cells data) -> type v = vertex ->
                id v <> js "__proto__") ->
     source e = None \/ target e = None \/
     (exists k, (source e = Some k \/ target e = Some k) /\
                (k = [] \/
                 (inherited_name k = false /\
                  forall v, In v (cells data) -> type v = vertex ->
                            id v <> k))) ->
     edge_terminals g (pass1_idMap (next_handle g) (cells data)) e = None).
Proof.
  repeat split.
  - intros g c. rewrite importGraphFromJSON_children. simpl.
    rewrite Nat.add_0_r. reflexivity.
  - apply importGraphFromJSON_children.
  - apply exportGraphToJSON_cells.
  - intros g data e Hp. apply (import_skips_unresolved g data e Hp).
Qed.

(** C10 (code defect, the one of C6).  A vertex element named
    [__proto__] replaces the prototype of [idMap] by its cell, and the
    methods of that cell answer for their names.  On the Document made of
    such a vertex and of an edge from ["getId"] to ["getId"], imported
    without clearing, the edge is not skipped, whatever the live model
    holds (a vertex with the id ["getId"], say, which is no element of
    the Document, as in the first part): [graph.insertEdge] is called
    with the method as terminals.  Apart from the inherited names the statement holds: with
    no vertex element named [__proto__], an edge element whose source or
    target names neither a vertex element nor an inherited member creates
    nothing, and every cell that a created edge is connected to has a
    handle of this import, the one of a vertex created for an element of
    the Document, never of a cell that was in the live model before. *)
Theorem replaced_prototype_becomes_terminal :
  children
    (importGraphFromJSON (model_with_vertex (js "getId"))
       {| cells := [vertex_at (js "__proto__");
                    edge_between (js "e1") (js "getId") (js "getId")];
          viewport := None |} false)
  = [(1, vertex_of 0 (vertex_at (js "getId")));
     (2, vertex_of 0 (vertex_at (js "__proto__")));
     (3, edge_cell 0 (js "e1") []
           (RForeign (js "getId")) (RForeign (js "getId")) [])] /\
  (forall g,
     children
       (importGraphFromJSON g
          {| cells := [vertex_at (js "__proto__");
                       edge_between (js "e1") (js "getId") (js "getId")];
             viewport := None |} false)
     = children g
       ++ [(next_handle g, vertex_of (root g) (vertex_at (js "__proto__")));
           (S (next_handle g),
            edge_cell (root g) (js "e1") []
              (RForeign (js "getId")) (RForeign (js "getId")) [])]) /\
  (forall g data e k,
     (forall v, In v (cells data) -> type v = vertex ->
                id v <> js "__proto__") ->
     source e = Some k \/ target e = Some k ->
     inherited_name k = false ->
     (forall v, In v (cells data) -> type v = vertex -> id v <> k) ->
     edge_terminals g (pass1_idMap (next_handle g) (cells data)) e = None) /\
  (forall g data e s t h,
     (forall v, In v (cells data) -> type v = vertex ->
                id v <> js "__proto__") ->
     edge_terminals g (pass1_idMap (next_handle g) (cells data)) e
     = Some (s, t) ->
     s = RCell h \/ t = RCell h ->
     next_handle g <= h /\
     exists v, In v (cells data) /\ type v = vertex /\
               In (h, vertex_of (root g) v)
                  (children (importGraphFromJSON g data false))).
Proof.
  split; [reflexivity|]. split; [|split].
  - intros g. rewrite importGraphFromJSON_children. simpl.
    rewrite Nat.add_1_r. reflexivity.
  - intros g data e k Hp Hk Hi Hv.
    apply (import_skips_unresolved g data e Hp).
    right. right. exists k. auto.
  - intros g data e s t h Hp Et Hh.
    destruct (proj2 (import_skips_unresolved g data e Hp) s t h Et Hh)
      as [Hn (v & Hv & Ht & Hc & _)].
    split; [exact Hn|]. exists v. auto.
Qed.

End InheritedMembers.

Section ExportAndValidation.
Context {J : JSNumber}.

(** C8.  [cellToJSON] gives an element for every cell that is a vertex
    or an edge, with or without a geometry record (and [null] for the
    others).  Without a geometry record the exported geometry is
    [{x:0, y:0, width:0, height:0}]; with one, each of [x], [y], [width]
    and [height] is copied if it is truthy and is [0] otherwise. *)
Theorem cellToJSON_geometry (g : mxGraph) (cell : mxCell) :
  (isEdge cell || isVertex cell = true ->
   exists graphCell, cellToJSON g (Some cell) = Some graphCell) /\
  (isEdge cell || isVertex cell = false -> cellToJSON g (Some cell) = None) /\
  (forall graphCell,
     cellToJSON g (Some cell) = Some graphCell ->
     match getGeometry cell with
     | None =>
         geometry graphCell
         = {| x := num_zero; y := num_zero;
              width := num_zero; height := num_zero |}
     | Some geo =>
         x (geometry graphCell)
         = (if num_truthy (x geo) then x geo else num_zero) /\
         y (geometry graphCell)
         = (if num_truthy (y geo) then y geo else num_zero) /\
         width (geometry graphCell)
         = (if num_truthy (width geo) then width geo else num_zero) /\
         height (geometry graphCell)
         = (if num_truthy (height geo) then height geo else num_zero)
     end).
Proof.
  unfold cellToJSON.
  destruct (isEdge cell) eqn:Ee, (isVertex cell) eqn:Ev; simpl;
    repeat split; try discriminate; eauto;
    intros graphCell E; injection E as <-; simpl;
    destruct (getGeometry cell); simpl; auto.
Qed.

(** C7.  [validateAIResponse] returns [true] exactly when the response is
    truthy, its [diagram] is truthy, [diagram.cells] is an array and
    [description] is a string; in every other case what it returns is
    falsy.  [{diagram:{cells:[]}, description:"ok"}] is accepted,
    [{diagram:{}, description:"ok"}] and [{description:"ok"}] are not. *)
Theorem validateAIResponse_contract :
  (forall response,
     validateAIResponse response = JBool true <->
     truthy response = true /\
     truthy (get_prop response (js "diagram")) = true /\
     is_array (get_prop (get_prop response (js "diagram")) (js "cells")) = true /\
     is_string (get_prop response (js "description")) = true) /\
  (forall response,
     validateAIResponse response = JBool true \/
     truthy (validateAIResponse response) = false) /\
  validateAIResponse
    (JObject [(js "diagram", JObject [(js "cells", JArray [])]);
              (js "description", JStr (js "ok"))]) = JBool true /\
  validateAIResponse
    (JObject [(js "diagram", JObject []);
              (js "description", JStr (js "ok"))]) = JBool false /\
  validateAIResponse (JObject [(js "description", JStr (js "ok"))])
  = JUndefined.
Proof.
  split; [|split; [|repeat split]].
  - intros response. unfold validateAIResponse.
    destruct (truthy response) eqn:E1; simpl.
    + destruct (truthy (get_prop response (js "diagram"))) eqn:E2; simpl.
      * destruct (is_array _) eqn:E3; simpl.
        -- destruct (is_string _) eqn:E4; simpl; split; intuition congruence.
        -- split; intuition congruence.
      * split; [|intuition congruence].
        intros E. rewrite E in E2. discriminate.
    + split; [|intuition congruence].
      intros E. rewrite E in E1. discriminate.
  - intros response. unfold validateAIResponse.
    destruct (truthy response) eqn:E1; simpl; auto.
    destruct (truthy (get_prop response (js "diagram"))) eqn:E2; simpl; auto.
    destruct (is_array _); simpl; auto.
    destruct (is_string _); simpl; auto.
Qed.

End ExportAndValidation.

(** *** Import, export and validation on concrete inputs *)



Lemma edge_first_document_ids (k : jsstring) :
  k <> js "a" -> k <> js "b" ->
  forall v, In v (cells (J := IntegerNumber) edge_first_document) ->
            type v = vertex -> id v <> k.
Proof.
  intros Ha Hb v [<- | [<- | [<- | []]]] Ht; simpl in *; congruence.
Qed.

(** C6, witness: an edge to [zz], which names nothing, is skipped. *)
Lemma inherited_member_becomes_terminal_witness :
  target (J := IntegerNumber) (edge_between (js "e2") (js "a") (js "zz"))
  = Some (js "zz") /\
  inherited_name (js "zz") = false /\
  edge_terminals (J := IntegerNumber) empty_model
    (pass1_idMap (next_handle empty_model) (cells edge_first_document))
    (edge_between (js "e2") (js "a") (js "zz"))
  = None.
Proof.
  split; [reflexivity|]. split; [reflexivity|].
  refine (proj2 (proj2 (proj2 (inherited_member_becomes_terminal
                                 (J := IntegerNumber))))
            empty_model edge_first_document
            (edge_between (js "e2") (js "a") (js "zz")) _ _).
  - apply edge_first_document_ids; vm_compute; discriminate.
  - right. right. exists (js "zz"). split; [right; reflexivity|].
    right. split; [reflexivity|].
    apply edge_first_document_ids; vm_compute; discriminate.
Defined.

(** C10, witness: an edge from [v1], a vertex of the live model that is
    no element of the Document, is skipped. *)
Lemma replaced_prototype_becomes_terminal_witness :
  (exists h c, In (h, c) (children (J := IntegerNumber)
                            (model_with_vertex (js "v1"))) /\
               getId c = Some (js "v1") /\ isVertex c = true) /\
  source (J := IntegerNumber) (edge_between (js "e2") (js "v1") (js "a"))
  = Some (js "v1") /\
  inherited_name (js "v1") = false /\
  edge_terminals (J := IntegerNumber) (model_with_vertex (js "v1"))
    (pass1_idMap (next_handle (model_with_vertex (js "v1")))
       (cells edge_first_document))
    (edge_between (js "e2") (js "v1") (js "a"))
  = None.
Proof.
  split.
  { exists 1%nat, (vertex_of 0%nat (vertex_at (js "v1"))).
    repeat split. simpl. auto. }
  split; [reflexivity|]. split; [reflexivity|].
  refine (proj1 (proj2 (proj2 (replaced_prototype_becomes_terminal
                                 (J := IntegerNumber))))
            (model_with_vertex (js "v1")) edge_first_document
            (edge_between (js "e2") (js "v1") (js "a")) (js "v1")
            _ (or_introl eq_refl) eq_refl _).
  - apply edge_first_document_ids; vm_compute; discriminate.
  - apply edge_first_document_ids; vm_compute; discriminate.
Defined.

(** C8, witness: a vertex without a geometry record. *)
Lemma cellToJSON_geometry_witness :
  isEdge (J := IntegerNumber)
    {| getId := Some (js "a"); getValue := None; getGeometry := None;
       getStyle := None; getParent := None; getSource := None;
       getTarget := None; isEdge := false; isVertex := true |}
  || isVertex (J := IntegerNumber)
    {| getId := Some (js "a"); getValue := None; getGeometry := None;
       getStyle := None; getParent := None; getSource := None;
       getTarget := None; isEdge := false; isVertex := true |} = true /\
  exists graphCell,
    cellToJSON (J := IntegerNumber) empty_model
      (Some {| getId := Some (js "a"); getValue := None; getGeometry := None;
               getStyle := None; getParent := None; getSource := None;
               getTarget := None; isEdge := false; isVertex := true |})
    = Some graphCell /\
    geometry graphCell
    = {| x := Some 0; y := Some 0; width := Some 0; height := Some 0 |}.
Proof.
  split; [reflexivity|].
  destruct (proj1 (cellToJSON_geometry (J := IntegerNumber) empty_model
                     {| getId := Some (js "a"); getValue := None;
                        getGeometry := None; getStyle := None;
                        getParent := None; getSource := None;
                        getTarget := None; isEdge := false;
                        isVertex := true |}) eq_refl) as [graphCell E].
  exists graphCell. split; [exact E|].
  exact (proj2 (proj2 (cellToJSON_geometry (J := IntegerNumber) empty_model _))
           graphCell E).
Defined.

(** C7, witness: the accepted response of the specification. *)
Lemma validateAIResponse_contract_witness :
  truthy (J := IntegerNumber)
    (JObject [(js "diagram", JObject [(js "cells", JArray [])]);
              (js "description", JStr (js "ok"))]) = true /\
  validateAIResponse (J := IntegerNumber)
    (JObject [(js "diagram", JObject [(js "cells", JArray [])]);
              (js "description", JStr (js "ok"))]) = JBool true.
Proof.
  split; [reflexivity|].
  exact (proj2 (proj1 (validateAIResponse_contract (J := IntegerNumber))
                  (JObject [(js "diagram", JObject [(js "cells", JArray [])]);
                            (js "description", JStr (js "ok"))]))
           (conj eq_refl (conj eq_refl (conj eq_refl eq_refl)))).
Defined.

(** The example of the specification: two vertices and an edge between
    them are imported and exported again with their ids, geometries,
    styles and terminals. *)
Example import_export_example :
  cells
    (exportGraphToJSON (J := IntegerNumber)
       (importGraphFromJSON empty_model
          {| cells :=
               [{| id := js "a"; type := vertex; value := js "Start";
                   geometry := {| x := Some 0; y := Some 0;
                                  width := Some 100; height := Some 40 |};
                   style := [(js "fillColor", VStr (js "#fff"))];
                   source := None; target := None; parent := None |};
                {| id := js "b"; type := vertex; value := js "End";
                   geometry := {| x := Some 200; y := Some 0;
                                  width := Some 100; height := Some 40 |};
                   style := []; source := None; target := None;
                   parent := None |};
                edge_between (js "e1") (js "a") (js "b")];
             viewport := None |} true))
  = [{| id := js "a"; type := vertex; value := js "Start";
        geometry := {| x := Some 0; y := Some 0;
                       width := Some 100; height := Some 40 |};
        style := [(js "fillColor", VStr (js "#fff"))];
        source := None; target := None; parent := Some (js "0") |};
     {| id := js "b"; type := vertex; value := js "End";
        geometry := {| x := Some 200; y := Some 0;
                       width := Some 100; height := Some 40 |};
        style := []; source := None; target := None;
        parent := Some (js "0") |};
     {| id := js "e1"; type := edge; value := [];
        geometry := {| x := Some 0; y := Some 0;
                       width := Some 0; height := Some 0 |};
        style := []; source := Some (js "a"); target := Some (js "b");
        parent := Some (js "0") |}].
Proof. reflexivity. Qed.

(* ================================================================== *)
(** * Part III: further properties of the code                         *)
(* ================================================================== *)

(** ** The style codec *)

Section FurtherCodec.
Context {J : JSNumber}.

Lemma split_append (sep : code_unit) (a b : jsstring) :
  split sep (a ++ sep :: b) = split sep a ++ split sep b.
Proof.
  induction a as [|c a IH]; simpl.
  - rewrite N.eqb_refl. reflexivity.
  - rewrite IH. destruct (c =? sep); [reflexivity|].
    pose proof (split_not_nil sep a) as Hn.
    destruct (split sep a); [congruence | reflexivity].
Qed.

Lemma parseStyle_fold (s : jsstring) :
  parseStyle s = fold_left parse_part (split semicolon s) [].
Proof. destruct s; reflexivity. Qed.

Lemma parseStyle_app (s1 s2 : jsstring) :
  parseStyle (s1 ++ js ";" ++ s2)
  = fold_left parse_part (split semicolon s2) (parseStyle s1).
Proof.
  rewrite (parseStyle_fold (s1 ++ js ";" ++ s2)).
  change (s1 ++ js ";" ++ s2) with (s1 ++ semicolon :: s2).
  rewrite split_append, fold_left_app, <- parseStyle_fold. reflexivity.
Qed.

(** X1.  Parsing a string made of two strings with a [;] between them
    continues, with the parts of the second, from the mapping of the
    first; so a [;] at the end or at the beginning of a style string
    changes nothing. *)
Theorem parseStyle_concat :
  (forall s1 s2,
     parseStyle (s1 ++ js ";" ++ s2)
     = fold_left parse_part (split semicolon s2) (parseStyle s1)) /\
  (forall s, parseStyle (s ++ js ";") = parseStyle s) /\
  (forall s, parseStyle (js ";" ++ s) = parseStyle s).
Proof.
  split; [exact parseStyle_app | split].
  - intros s. replace (s ++ js ";") with (s ++ js ";" ++ [])
      by (rewrite app_nil_r; reflexivity).
    rewrite parseStyle_app. reflexivity.
  - intros s.
    exact (eq_trans (parseStyle_app [] s) (eq_sym (parseStyle_fold s))).
Qed.

Lemma parseStyleValue_parsed (t : jsstring) :
  plain t = true -> trim t = t -> parsed_value (parseStyleValue t).
Proof.
  intros Hp Ht. unfold parseStyleValue.
  destruct (str_eqb t (js "true")) eqn:E1; [exact I|].
  destruct (str_eqb t (js "false")) eqn:E2; [exact I|].
  apply str_eqb_neq in E1, E2.
  destruct (isNaN (Number t)) eqn:E3; simpl; auto.
Qed.

Lemma parse_part_parsed (o : obj) (part : jsstring) :
  no_unit semicolon part = true ->
  Forall (fun e => clean_key (fst e) /\ parsed_value (snd e)) o ->
  Forall (fun e => clean_key (fst e) /\ parsed_value (snd e))
    (parse_part o part).
Proof.
  intros Hs Ho. unfold parse_part.
  pose proof (split_fields_no_sep equals_sign part) as He.
  pose proof (split_fields_no_unit equals_sign semicolon part Hs) as Hc.
  destruct (split equals_sign part) as [|key [|value rest]]; auto.
  destruct (truthy_str key && truthy_str value); auto.
  inversion He as [|? ? Hke He']; inversion He' as [|? ? Hve _]; subst.
  inversion Hc as [|? ? Hkc Hc']; inversion Hc' as [|? ? Hvc _]; subst.
  apply Forall_forall. intros e Hin.
  apply In_obj_set in Hin. destruct Hin as [Hin | [-> Hproto]].
  - rewrite Forall_forall in Ho. auto.
  - split; simpl.
    + repeat split; auto using trim_idempotent.
      apply plain_trim. unfold plain. rewrite Hkc, Hke. reflexivity.
    + apply parseStyleValue_parsed; auto using trim_idempotent.
      apply plain_trim. unfold plain. rewrite Hvc, Hve. reflexivity.
Qed.

Lemma parseStyle_parsed (s : jsstring) :
  Forall (fun e => clean_key (fst e) /\ parsed_value (snd e)) (parseStyle s).
Proof.
  rewrite parseStyle_fold.
  apply (fold_left_invariant parse_part
           (Forall (fun e => clean_key (fst e) /\ parsed_value (snd e)))
           (fun p => no_unit semicolon p = true)).
  - intros. apply parse_part_parsed; assumption.
  - constructor.
  - apply split_fields_no_sep.
Qed.

(** X2.  What [parseStyle] returns, for every string: the keys are
    distinct, free of [;] and [=], without white space at their ends and
    never [__proto__]; a value is a boolean, a number that is not NaN, or
    a string that is trimmed, free of [;] and [=], neither ["true"] nor
    ["false"] and that [Number] does not convert; never [undefined] or
    [null]. *)
Theorem parseStyle_entries_shape (s : jsstring) :
  NoDup (keys (parseStyle s)) /\
  forall k v, In (k, v) (parseStyle s) ->
    plain k = true /\ trim k = k /\ k <> js "__proto__" /\ parsed_value v.
Proof.
  split; [apply NoDup_keys_parseStyle|].
  pose proof (parseStyle_parsed s) as H.
  intros k v Hin. rewrite Forall_forall in H.
  destruct (H _ Hin) as [(? & ? & ?) ?]. auto.
Qed.

Lemma In_replace_other (k : jsstring) (v : style_value) (o : obj)
    (e : jsstring * style_value) :
  fst e <> k -> (In e (replace k v o) <-> In e o).
Proof.
  intros Hk. induction o as [|e' o IH]; simpl; [tauto|].
  destruct (str_eqb k (fst e')) eqn:E; simpl.
  - apply str_eqb_eq in E.
    split; intros [<- | H]; auto; simpl in *; congruence.
  - rewrite IH. tauto.
Qed.

(** An assignment leaves the entries of the other names as they are. *)
Lemma In_obj_set_other (o : obj) (k : jsstring) (v : style_value)
    (e : jsstring * style_value) :
  fst e <> k -> (In e (obj_set o k v) <-> In e o).
Proof.
  intros Hk. unfold obj_set.
  destruct (str_eqb k (js "__proto__")); [tauto|].
  destruct (has_key k o).
  - apply In_replace_other. assumption.
  - rewrite in_app_iff. simpl. split; [|auto].
    intros [H | [<- | []]]; [assumption|]. simpl in Hk. congruence.
Qed.

(** X3.  A further segment [key=value] at the end of a style string,
    with a key and a value that are not empty: the trimmed key is mapped
    to the coercion of the trimmed value, whatever it was mapped to
    before; the entries of the other keys are those of the string
    without the segment; and the key keeps its place if it was there,
    or else comes last. *)
Theorem parseStyle_last_segment_wins (s key value : jsstring) :
  plain key = true -> plain value = true ->
  key <> [] -> value <> [] -> trim key <> js "__proto__" ->
  let r := parseStyle (s ++ js ";" ++ key ++ js "=" ++ value) in
  In (trim key, parseStyleValue (trim value)) r /\
  (forall w, In (trim key, w) r -> w = parseStyleValue (trim value)) /\
  (forall e, fst e <> trim key -> (In e r <-> In e (parseStyle s))) /\
  (keys r = keys (parseStyle s) \/
   (keys r = keys (parseStyle s) ++ [trim key] /\
    ~ In (trim key) (keys (parseStyle s)))).
Proof.
  intros Hk Hv Nk Nv Hp r.
  unfold plain in Hk, Hv. apply andb_true_iff in Hk, Hv.
  assert (Er : r = obj_set (parseStyle s) (trim key)
                     (parseStyleValue (trim value))).
  { unfold r. rewrite parseStyle_app.
    change (key ++ js "=" ++ value) with (join (js "=") [key; value]).
    rewrite split_no_unit.
    - cbn [fold_left]. rewrite parse_part_fields
        by (repeat constructor; tauto).
      apply truthy_str_true in Nk, Nv. rewrite Nk, Nv. reflexivity.
    - rewrite join_cons. cbn [join]. rewrite !no_unit_app.
      destruct Hk as [-> _], Hv as [-> _]. reflexivity. }
  assert (Hin : In (trim key, parseStyleValue (trim value)) r).
  { rewrite Er. apply In_obj_set_new. assumption. }
  repeat split.
  - exact Hin.
  - intros w Hw.
    apply (NoDup_keys_unique r (trim key)); auto.
    rewrite Er. apply NoDup_keys_obj_set, NoDup_keys_parseStyle.
  - rewrite Er. apply In_obj_set_other. assumption.
  - rewrite Er. apply In_obj_set_other. assumption.
  - rewrite Er.
    destruct (keys_obj_set (parseStyle s) (trim key)
                (parseStyleValue (trim value))) as [E | (E & Hn & _)]; auto.
Qed.

Lemma trim_not_nil (s : jsstring) : trim s <> [] -> s <> [].
Proof. intros H ->. apply H. reflexivity. Qed.

(** X4.  White space around the key and around the value of a part does
    not count: a part whose trimmed key and trimmed value are not empty
    is read as the part with the trimmed key and the trimmed value. *)
Theorem parse_part_ignores_padding (o : obj) (key value : jsstring)
    (others : list jsstring) :
  Forall (fun f => no_unit equals_sign f = true) (key :: value :: others) ->
  trim key <> [] -> trim value <> [] ->
  parse_part o (join (js "=") (key :: value :: others))
  = parse_part o (join (js "=") [trim key; trim value]).
Proof.
  intros H Nk Nv. inversion H as [|? ? Hk H']; subst.
  inversion H' as [|? ? Hv _]; subst.
  rewrite !parse_part_fields;
    [| repeat constructor; apply no_unit_trim; assumption | assumption].
  rewrite !trim_idempotent.
  pose proof (trim_not_nil _ Nk) as Nk'. pose proof (trim_not_nil _ Nv) as Nv'.
  apply truthy_str_true in Nk, Nv, Nk', Nv'.
  rewrite Nk, Nv, Nk', Nv'. reflexivity.
Qed.

Lemma join_segments_nil (l : list (jsstring * style_value)) :
  join (js ";") (map segment l) = [] -> l = [].
Proof.
  destruct l as [|e l]; [reflexivity|]. simpl map.
  destruct (map segment l) as [|p rest] eqn:E.
  - simpl. unfold segment. intros H. apply app_eq_nil in H.
    destruct H as [_ H]. discriminate.
  - rewrite join_cons. unfold segment. intros H. apply app_eq_nil in H.
    destruct H as [H _]. apply app_eq_nil in H. destruct H as [_ H].
    discriminate.
Qed.

Lemma filter_nil_iff {A : Type} (f : A -> bool) (l : list A) :
  filter f l = [] <-> forall a, In a l -> f a = false.
Proof.
  induction l as [|a l IH]; simpl; [tauto|].
  destruct (f a) eqn:E.
  - split; [discriminate|]. intros H. rewrite (H a) in E by auto.
    discriminate.
  - rewrite IH. split.
    + intros H b [<- | Hb]; auto.
    + auto.
Qed.

(** X5.  [formatStyle] returns the empty string exactly for the mappings
    in which every value is [undefined] or [null], the empty mapping
    among them. *)
Theorem formatStyle_empty_iff (style : obj) :
  formatStyle style = [] <->
  (forall k v, In (k, v) style -> defined v = false).
Proof.
  rewrite formatStyle_join. split.
  - intros H k v Hin. apply join_segments_nil in H.
    apply (proj1 (filter_nil_iff _ _) H (k, v)).
    apply (proj2 (In_entries _ _)). assumption.
  - intros H.
    assert (E : filter (fun e => defined (snd e)) (entries style) = []).
    { apply filter_nil_iff. intros [k v] Hin. apply (H k v).
      apply (proj1 (In_entries _ _)). assumption. }
    rewrite E. reflexivity.
Qed.

Section Laws.
Context {L : JSNumberLaws J}.

Lemma parsed_value_roundtrips (v : style_value) :
  parsed_value v -> roundtrips v.
Proof.
  destruct v as [| | b | n | t]; simpl; try tauto.
  - intros _. destruct b; repeat split; try reflexivity; discriminate.
  - intros Hn. destruct (num_to_string_units _ Hn) as [Hne Hu].
    destruct (number_units_not_boolean _ Hu) as [Nt Nf].
    unfold roundtrips, parseStyleValue. simpl.
    apply str_eqb_neq in Nt, Nf. rewrite Nt, Nf.
    rewrite (Number_num_to_string _ Hn), Hn. simpl.
    repeat split; auto.
    + apply number_units_plain. assumption.
    + apply trim_no_white_space, number_units_no_white_space. assumption.
  - intros (Hp & Ht & Nt & Nf & Hn).
    unfold roundtrips, parseStyleValue. simpl.
    apply str_eqb_neq in Nt, Nf. rewrite Nt, Nf, Hn. simpl.
    repeat split; auto.
    intros ->. rewrite Number_empty in Hn. discriminate.
Qed.

Lemma parseStyle_formatStyle_clean (m : obj) :
  NoDup (keys m) ->
  Forall (fun e => fst e <> [] /\ clean_key (fst e) /\ parsed_value (snd e))
    m ->
  parseStyle (formatStyle m) = entries m.
Proof.
  intros Hnd Hm. rewrite Forall_forall in Hm.
  assert (HE : Forall codec_entry (entries m)).
  { apply Forall_forall. intros e He.
    apply (proj1 (In_entries _ _)) in He.
    destruct (Hm e He) as (_ & ? & Hv).
    split; [assumption | apply parsed_value_roundtrips, Hv]. }
  rewrite formatStyle_join, filter_defined_codec by assumption.
  apply parseStyle_segments_of.
  - assumption.
  - intros k Hin.
    apply (Permutation_in _ (keys_entries_perm m)) in Hin.
    unfold keys in Hin. apply in_map_iff in Hin.
    destruct Hin as (e & <- & Hin). apply (Hm e Hin).
  - apply NoDup_keys_entries, Hnd.
Qed.

(** X6.  Formatting and parsing back, for a mapping with distinct keys
    that are not empty, trimmed, free of [;] and [=] and not [__proto__],
    and with values that are booleans, numbers other than NaN, or
    strings that are trimmed, free of [;] and [=], neither ["true"] nor
    ["false"] and not convertible by [Number]: [parseStyle] gives the
    entries of the mapping back, created in the order of their
    enumeration. *)
Theorem parseStyle_formatStyle_entries (m : obj) :
  NoDup (keys m) ->
  (forall k v, In (k, v) m ->
     k <> [] /\ plain k = true /\ trim k = k /\ k <> js "__proto__" /\
     parsed_value v) ->
  parseStyle (formatStyle m) = entries m /\
  entries (parseStyle (formatStyle m)) = entries m.
Proof.
  intros Hnd Hm.
  assert (E : parseStyle (formatStyle m) = entries m).
  { apply parseStyle_formatStyle_clean; [assumption|].
    apply Forall_forall. intros [k v] Hin.
    destruct (Hm k v Hin) as (? & ? & ? & ? & ?).
    repeat split; assumption. }
  split; [exact E|]. rewrite E. apply entries_entries.
Qed.

Lemma formatStyle_entries (o : obj) : formatStyle (entries o) = formatStyle o.
Proof. unfold formatStyle. rewrite entries_entries. reflexivity. Qed.

(** X7.  Parsing and formatting is stable after one round: for a string
    [s] such that [parseStyle(s)] has no empty key, formatting
    [parseStyle(s)], parsing the result and formatting again gives the
    string of the first formatting. *)
Theorem formatStyle_parseStyle_stable (s : jsstring) :
  ~ In [] (keys (parseStyle s)) ->
  formatStyle (parseStyle (formatStyle (parseStyle s)))
  = formatStyle (parseStyle s).
Proof.
  intros Hk.
  rewrite parseStyle_formatStyle_clean.
  - apply formatStyle_entries.
  - apply NoDup_keys_parseStyle.
  - pose proof (parseStyle_parsed s) as H. rewrite Forall_forall in *.
    intros e He. split; [|apply H, He].
    intros E. apply Hk. rewrite <- E. apply in_map. assumption.
Qed.

End Laws.
End FurtherCodec.

(** ** Export, import and their callers *)

Section FurtherGraph.
Context {J : JSNumber}.
Local Open Scope nat_scope.

(** *** Lists *)

Lemma fold_left_map_same {A B : Type} (f : A -> B -> A) (h : B -> B)
    (l : list B) (a : A) :
  (forall a x, f a (h x) = f a x) ->
  fold_left f (map h l) a = fold_left f l a.
Proof.
  intros H. revert a. induction l as [|b l IH]; intros a; [reflexivity|].
  simpl. rewrite H. apply IH.
Qed.

Lemma flat_map_same {A B : Type} (f f' : A -> list B) (l : list A) :
  (forall a, In a l -> f a = f' a) -> flat_map f l = flat_map f' l.
Proof.
  induction l as [|a l IH]; intros H; [reflexivity|].
  simpl. rewrite H by (simpl; auto). rewrite IH; [reflexivity|].
  intros. apply H. simpl. auto.
Qed.

Lemma find_none_all {A : Type} (f : A -> bool) (l : list A) :
  (forall a, In a l -> f a = false) -> find f l = None.
Proof.
  induction l as [|a l IH]; intros H; [reflexivity|].
  simpl. rewrite H by (simpl; auto). apply IH. intros. apply H. simpl. auto.
Qed.

Lemma find_app_first {A : Type} (f : A -> bool) (l1 l2 : list A) :
  (forall a, In a l2 -> f a = false) -> find f (l1 ++ l2) = find f l1.
Proof.
  intros H. induction l1 as [|a l1 IH]; simpl.
  - apply find_none_all, H.
  - destruct (f a); [reflexivity | apply IH].
Qed.

Lemma find_app_second {A : Type} (f : A -> bool) (l1 l2 : list A) :
  (forall a, In a l1 -> f a = false) -> find f (l1 ++ l2) = find f l2.
Proof.
  induction l1 as [|a l1 IH]; intros H; [reflexivity|].
  simpl. rewrite H by (simpl; auto). apply IH. intros. apply H. simpl. auto.
Qed.

Lemma find_app_found {A : Type} (f : A -> bool) (l1 l2 : list A) (a : A) :
  find f l1 = Some a -> find f (l1 ++ l2) = Some a.
Proof.
  induction l1 as [|b l1 IH]; [discriminate|].
  simpl. destruct (f b); auto.
Qed.

Lemma length_numbered {A : Type} (n : handle) (l : list A) :
  length (numbered n l) = length l.
Proof.
  revert n. induction l as [|a l IH]; intros n; [reflexivity|].
  rewrite numbered_cons. simpl. rewrite IH. reflexivity.
Qed.

Lemma numbered_app {A : Type} (n : handle) (l1 l2 : list A) :
  numbered n (l1 ++ l2) = numbered n l1 ++ numbered (n + length l1) l2.
Proof.
  revert n. induction l1 as [|a l1 IH]; intros n.
  - simpl. rewrite Nat.add_0_r. reflexivity.
  - cbn [app length]. rewrite !numbered_cons, IH, Nat.add_succ_r. reflexivity.
Qed.

(** A handle names one cell of a numbered list. *)
Lemma find_numbered {A : Type} (n h : handle) (a : A) (l : list A) :
  In (h, a) (numbered n l) ->
  find (fun c => Nat.eqb h (fst c)) (numbered n l) = Some (h, a).
Proof.
  revert n. induction l as [|b l IH]; intros n; [intros []|].
  rewrite numbered_cons. cbn [find fst]. intros [E | H].
  - injection E as <- <-. rewrite Nat.eqb_refl. reflexivity.
  - destruct (Nat.eqb h n) eqn:Eh.
    + apply Nat.eqb_eq in Eh. apply In_numbered in H. lia.
    + apply IH, H.
Qed.

(** *** The fields import reads *)

Lemma import_vertex_fields (p : handle) (st : mxGraph * IdMap)
    (cellData : GraphCell) :
  import_vertex p st (imported_fields cellData) = import_vertex p st cellData.
Proof.
  unfold import_vertex, imported_fields, insertVertex. cbn [type].
  destruct (type cellData); reflexivity.
Qed.

Lemma import_edge_fields (p : handle) (m : IdMap) (g : mxGraph)
    (cellData : GraphCell) :
  import_edge p m g (imported_fields cellData) = import_edge p m g cellData.
Proof.
  unfold import_edge, edge_terminals, imported_fields, insertEdge.
  cbn [type source target]. destruct (type cellData); reflexivity.
Qed.

(** *** The frame of an import *)

Lemma importGraphFromJSON_frame (g : mxGraph) (data : GraphData)
    (clearExisting : bool) :
  root (importGraphFromJSON g data clearExisting) = root g /\
  root_id (importGraphFromJSON g data clearExisting) = root_id g /\
  cell_member (importGraphFromJSON g data clearExisting) = cell_member g /\
  update_level (importGraphFromJSON g data clearExisting) = update_level g.
Proof.
  unfold importGraphFromJSON, getDefaultParent.
  rewrite pass1_fold, pass2_fold.
  destruct (viewport data); destruct clearExisting; simpl; auto.
Qed.

Lemma importGraphFromJSON_view (g : mxGraph) (data : GraphData)
    (clearExisting : bool) :
  view_scale (importGraphFromJSON g data clearExisting)
  = match viewport data with
    | Some vp => scale vp
    | None => view_scale g
    end /\
  view_translate (importGraphFromJSON g data clearExisting)
  = match viewport data with
    | Some vp => translate vp
    | None => view_translate g
    end.
Proof.
  unfold importGraphFromJSON, getDefaultParent.
  rewrite pass1_fold, pass2_fold.
  destruct (viewport data) as [[s [tx ty]]|]; destruct clearExisting;
    simpl; auto.
Qed.

(** *** Export of the cells an import creates *)

Lemma or_zero_zero : or_zero num_zero = num_zero.
Proof. unfold or_zero. destruct (num_truthy num_zero); reflexivity. Qed.

Lemma or_undefined_not_empty (s : option jsstring) : or_undefined s <> Some [].
Proof.
  unfold or_undefined. destruct s as [[|c s]|]; simpl; discriminate.
Qed.

Lemma id_of_handle_root (g : mxGraph) : id_of_handle g (root g) = root_id g.
Proof. unfold id_of_handle. rewrite Nat.eqb_refl. reflexivity. Qed.

(** Export reads the ids of the cells a cell refers to and nothing else
    of the model. *)
Lemma cellToJSON_same_ids (g g' : mxGraph) (cell : mxCell) :
  (forall h, In h (cell_refs cell) -> id_of_handle g' h = id_of_handle g h) ->
  cellToJSON g' (Some cell) = cellToJSON g (Some cell).
Proof.
  unfold cell_refs. intros H.
  assert (P : match getParent cell with
              | Some p => id_of_handle g' p
              | None => None
              end
              = match getParent cell with
                | Some p => id_of_handle g p
                | None => None
                end).
  { destruct (getParent cell); [apply H; simpl; auto | reflexivity]. }
  assert (S : ref_id g' (getSource cell) = ref_id g (getSource cell)).
  { destruct (getSource cell) as [[h|k]|]; try reflexivity.
    apply H. apply in_or_app. right. simpl. auto. }
  assert (T : ref_id g' (getTarget cell) = ref_id g (getTarget cell)).
  { destruct (getTarget cell) as [[h|k]|]; try reflexivity.
    apply H. apply in_or_app. right. apply in_or_app. right. simpl. auto. }
  unfold cellToJSON. rewrite P, S, T. reflexivity.
Qed.

Lemma cellToJSON_vertex_of (g : mxGraph) (cellData : GraphCell) :
  cellToJSON g (Some (vertex_of (root g) cellData))
  = Some (reexported_vertex g cellData).
Proof.
  unfold cellToJSON, vertex_of, vertex_cell, reexported_vertex,
    exported_geometry.
  cbn [isEdge isVertex getId getValue getGeometry getStyle getParent
       getSource getTarget negb andb or_empty x y width height].
  rewrite id_of_handle_root. reflexivity.
Qed.

Lemma cellToJSON_edge_of (g : mxGraph) (cellData : GraphCell)
    (hs ht : handle) :
  or_undefined (id_of_handle g hs) = source cellData ->
  or_undefined (id_of_handle g ht) = target cellData ->
  cellToJSON g (Some (edge_of (root g) cellData (RCell hs) (RCell ht)))
  = Some (reexported_edge g cellData).
Proof.
  intros Hs Ht.
  unfold cellToJSON, edge_of, edge_cell, reexported_edge, zero_geometry.
  cbn [isEdge isVertex getId getValue getGeometry getStyle getParent
       getSource getTarget negb andb or_empty x y width height ref_id].
  rewrite id_of_handle_root, Hs, Ht, or_zero_zero. reflexivity.
Qed.

Lemma truthy_opt_or_undefined (s : option jsstring) :
  truthy_opt s = true -> or_undefined s = s /\ or_undefined (Some (or_empty s)) = s.
Proof.
  unfold truthy_opt, or_undefined, or_empty. destruct s as [s|]; [|discriminate].
  intros ->. auto.
Qed.

Lemma truthy_opt_some (s : option jsstring) :
  truthy_opt s = true -> s = Some (or_empty s) /\ or_empty s <> [].
Proof.
  unfold truthy_opt, or_empty. destruct s as [s|]; [|discriminate].
  intros H. split; [reflexivity | apply truthy_str_true, H].
Qed.

Lemma is_edge_true (c : GraphCell) : is_edge c = true -> type c = edge.
Proof. unfold is_edge. destruct (type c); congruence. Qed.

Lemma edge_terminals_found (g : mxGraph) (m : IdMap) (e : GraphCell)
    (s t : jsref) :
  edge_terminals g m e = Some (s, t) ->
  type e = edge /\
  truthy_opt (source e) = true /\ truthy_opt (target e) = true /\
  idMap_get g m (or_empty (source e)) = Some s /\
  idMap_get g m (or_empty (target e)) = Some t.
Proof.
  unfold edge_terminals. destruct (type e); [discriminate|].
  destruct (truthy_opt (source e)); [|discriminate].
  destruct (truthy_opt (target e)); [|discriminate]. cbn [andb].
  destruct (idMap_get g m (or_empty (source e))) as [s'|]; [|discriminate].
  destruct (idMap_get g m (or_empty (target e))) as [t'|]; [|discriminate].
  intros E. injection E as <- <-. auto.
Qed.

(** An edge element that names two vertex elements is connected to
    cells. *)
Lemma edge_terminals_vertices (g : mxGraph) (cs : list GraphCell)
    (e : GraphCell) (a b : jsstring) :
  type e = edge -> source e = Some a -> target e = Some b ->
  a <> [] -> b <> [] ->
  (exists va, In va cs /\ type va = vertex /\ id va = a) ->
  (exists vb, In vb cs /\ type vb = vertex /\ id vb = b) ->
  exists ha hb,
    edge_terminals g (pass1_idMap (next_handle g) cs) e
    = Some (RCell ha, RCell hb).
Proof.
  intros Ht Hs Htg Ha Hb (va & Hva & Htva & Eva) (vb & Hvb & Htvb & Evb).
  set (n := next_handle g).
  destruct (pass1_idMap_vertex n cs va Hva Htva) as (ha & ca & Eha & _).
  destruct (pass1_idMap_vertex n cs vb Hvb Htvb) as (hb & cb & Ehb & _).
  rewrite Eva in Eha. rewrite Evb in Ehb.
  pose proof (idMap_get_cell g _ a ha (pass1_idMap_wf n cs) Eha) as Ga.
  pose proof (idMap_get_cell g _ b hb (pass1_idMap_wf n cs) Ehb) as Gb.
  exists ha, hb. unfold edge_terminals. rewrite Ht, Hs, Htg. simpl.
  apply truthy_str_true in Ha, Hb. rewrite Ha, Hb. simpl.
  rewrite Ga, Gb. reflexivity.
Qed.

(** Whether a list has a vertex element of a given id. *)
Lemma existsb_vertex_id (cs : list GraphCell) (k : jsstring) :
  existsb (fun v => is_vertex v && str_eqb (id v) k) cs = true <->
  exists v, In v cs /\ type v = vertex /\ id v = k.
Proof.
  rewrite existsb_exists. split.
  - intros (v & Hv & H). apply andb_true_iff in H. destruct H as [H1 H2].
    exists v. split; [assumption|].
    split; [apply is_vertex_true, H1 | apply str_eqb_eq, H2].
  - intros (v & Hv & Ht & Ek). exists v. split; [assumption|].
    unfold is_vertex. rewrite Ht, Ek, str_eqb_refl. reflexivity.
Qed.

(** A name that no vertex element has and that [idMap] does not inherit
    is read as [undefined]. *)
Lemma unnamed_terminal (g : mxGraph) (data : GraphData) (e : GraphCell)
    (field : option jsstring) :
  plain_terminals data -> In e (cells data) -> type e = edge ->
  field = source e \/ field = target e ->
  truthy_opt field = true ->
  existsb (fun v => is_vertex v && str_eqb (id v) (or_empty field))
    (cells data) = false ->
  idMap_get g (pass1_idMap (next_handle g) (cells data)) (or_empty field)
  = None.
Proof.
  intros [Hp Hn] He Ht Hf Htr Hex.
  destruct (truthy_opt_some field Htr) as [Ef _].
  assert (Hno : forall v, In v (cells data) -> type v = vertex ->
                          id v <> or_empty field).
  { intros v Hv Htv Ev.
    assert (H : existsb (fun v => is_vertex v
                                  && str_eqb (id v) (or_empty field))
                  (cells data) = true)
      by (apply existsb_vertex_id; exists v; auto).
    rewrite Hex in H. discriminate. }
  rewrite pass1_idMap_get_other by assumption.
  destruct (Hn e (or_empty field) He Ht) as [-> | (v & Hv & Htv & Ev)].
  - destruct Hf as [<- | <-]; auto.
  - reflexivity.
  - exfalso. apply (Hno v Hv Htv Ev).
Qed.

(** For such a Document, pass 2 connects exactly the edge elements that
    name two vertex elements, and connects them to cells. *)
Lemma names_vertices_terminals (g : mxGraph) (data : GraphData)
    (e : GraphCell) :
  plain_terminals data -> In e (cells data) ->
  (names_vertices (cells data) e = true ->
   exists hs ht,
     edge_terminals g (pass1_idMap (next_handle g) (cells data)) e
     = Some (RCell hs, RCell ht)) /\
  (names_vertices (cells data) e = false ->
   edge_terminals g (pass1_idMap (next_handle g) (cells data)) e = None).
Proof.
  intros Hplain He. unfold names_vertices. split.
  - intros H. repeat (apply andb_true_iff in H; destruct H as [H ?]).
    apply is_edge_true in H.
    destruct (truthy_opt_some (source e)) as [Es Ns]; [assumption|].
    destruct (truthy_opt_some (target e)) as [Et Nt]; [assumption|].
    apply (edge_terminals_vertices g (cells data) e
             (or_empty (source e)) (or_empty (target e))); auto;
      apply existsb_vertex_id; assumption.
  - intros H. destruct (type e) eqn:Ht.
    { unfold edge_terminals. rewrite Ht. reflexivity. }
    apply edge_terminals_skipped.
    destruct (truthy_opt (source e)) eqn:Hs; [|auto].
    destruct (truthy_opt (target e)) eqn:Htg; [|auto].
    right. right.
    unfold is_edge in H. rewrite Ht in H. cbn [andb] in H.
    apply andb_false_iff in H. destruct H as [H | H].
    + left. apply (unnamed_terminal g data e); auto.
    + right. apply (unnamed_terminal g data e); auto.
Qed.

Lemma connected_names_vertices (g : mxGraph) (data : GraphData)
    (e : GraphCell) :
  plain_terminals data -> In e (cells data) ->
  connected g (pass1_idMap (next_handle g) (cells data)) e
  = names_vertices (cells data) e.
Proof.
  intros Hplain He. unfold connected.
  destruct (names_vertices_terminals g data e Hplain He) as [H1 H2].
  destruct (names_vertices (cells data) e).
  - destruct (H1 eq_refl) as (hs & ht & ->). reflexivity.
  - rewrite (H2 eq_refl). reflexivity.
Qed.

Section AfterImport.
Variables (g : mxGraph) (data : GraphData) (clearExisting : bool).
Hypothesis root_old : root g < next_handle g.
Hypothesis cells_old : clearExisting = false -> model_closed g.
Hypothesis plain : plain_terminals data.

(** The id export reads for a vertex that the import has created. *)
Lemma id_of_new_vertex (h : handle) (v : GraphCell) :
  In (h, v) (numbered (next_handle g) (filter is_vertex (cells data))) ->
  id_of_handle (importGraphFromJSON g data clearExisting) h = Some (id v).
Proof.
  intros Hin. pose proof (In_numbered _ _ _ _ Hin) as [Hle _].
  destruct (importGraphFromJSON_frame g data clearExisting) as (Hr & _).
  unfold id_of_handle. rewrite Hr, importGraphFromJSON_children.
  assert (E : Nat.eqb h (root g) = false) by (apply Nat.eqb_neq; lia).
  rewrite E. rewrite find_app_second.
  - rewrite (find_app_found _ _ _ (h, vertex_of (root g) v)); [reflexivity|].
    apply find_numbered. rewrite numbered_map.
    apply in_map_iff. exists (h, v). auto.
  - intros c Hc. apply Nat.eqb_neq.
    destruct clearExisting; [destruct Hc|].
    destruct (cells_old eq_refl c Hc) as [Hlt _].
    intros Eq. rewrite Eq in Hle. apply (Nat.lt_irrefl (fst c)).
    apply (Nat.lt_le_trans _ _ _ Hlt Hle).
Qed.

(** The id export reads for a cell that was there before. *)
Lemma id_of_old_cell (h : handle) :
  clearExisting = false -> h < next_handle g ->
  id_of_handle (importGraphFromJSON g data clearExisting) h
  = id_of_handle g h.
Proof.
  intros Ec Hlt.
  destruct (importGraphFromJSON_frame g data clearExisting) as (Hr & Hi & _).
  unfold id_of_handle. rewrite Hr, Hi, importGraphFromJSON_children, Ec.
  rewrite find_app_first; [reflexivity|].
  intros c Hc. apply Nat.eqb_neq. destruct c as [h' c'].
  apply in_app_or in Hc. destruct Hc as [Hc | Hc];
    apply In_numbered in Hc; simpl; lia.
Qed.

(** The id export reads at a terminal of a new edge is the one the
    element names. *)
Lemma exported_terminal (field : option jsstring) (h : handle) :
  truthy_opt field = true ->
  idMap_get g (pass1_idMap (next_handle g) (cells data)) (or_empty field)
  = Some (RCell h) ->
  or_undefined (id_of_handle (importGraphFromJSON g data clearExisting) h)
  = field.
Proof.
  intros Ht Hs.
  destruct (pass1_idMap_get_cell g _ _ _ h (proj1 plain) Hs) as (v & Hv & Ev).
  rewrite (id_of_new_vertex h v Hv), Ev.
  apply truthy_opt_or_undefined, Ht.
Qed.

Lemma export_new_edge (e : GraphCell) (hs ht : handle) :
  edge_terminals g (pass1_idMap (next_handle g) (cells data)) e
  = Some (RCell hs, RCell ht) ->
  cellToJSON (importGraphFromJSON g data clearExisting)
    (Some (edge_of (root g) e (RCell hs) (RCell ht)))
  = Some (reexported_edge g e).
Proof.
  intros E. apply edge_terminals_found in E.
  destruct E as (_ & Hs & Ht & Es & Et).
  destruct (importGraphFromJSON_frame g data clearExisting) as (Hr & Hi & _).
  rewrite <- Hr at 1. rewrite cellToJSON_edge_of.
  - unfold reexported_edge. rewrite Hi. reflexivity.
  - apply exported_terminal; assumption.
  - apply exported_terminal; assumption.
Qed.

Lemma export_new_vertex (v : GraphCell) :
  cellToJSON (importGraphFromJSON g data clearExisting)
    (Some (vertex_of (root g) v))
  = Some (reexported_vertex g v).
Proof.
  destruct (importGraphFromJSON_frame g data clearExisting) as (Hr & Hi & _).
  rewrite <- Hr at 1. rewrite cellToJSON_vertex_of.
  unfold reexported_vertex. rewrite Hi. reflexivity.
Qed.

Lemma export_after_import_cells :
  cells (exportGraphToJSON (importGraphFromJSON g data clearExisting))
  = (if clearExisting then [] else cells (exportGraphToJSON g))
    ++ map (reexported_vertex g) (filter is_vertex (cells data))
    ++ map (reexported_edge g)
         (filter (names_vertices (cells data)) (cells data)).
Proof.
  rewrite exportGraphToJSON_cells, importGraphFromJSON_children.
  set (g' := importGraphFromJSON g data clearExisting).
  set (m := pass1_idMap (next_handle g) (cells data)).
  rewrite !flat_map_app. f_equal; [|f_equal].
  - pose proof id_of_old_cell as Hold. pose proof cells_old as Hcl.
    unfold g'. destruct clearExisting; [reflexivity|].
    rewrite exportGraphToJSON_cells. apply flat_map_same.
    intros c Hc. rewrite (cellToJSON_same_ids g); [reflexivity|].
    intros h Hh. apply Hold; [reflexivity|].
    apply (proj2 (Hcl eq_refl c Hc)), Hh.
  - generalize (next_handle g) at 1.
    induction (filter is_vertex (cells data)) as [|v l IH]; intros n;
      [reflexivity|].
    cbn [map]. rewrite numbered_cons. cbn [flat_map snd].
    unfold g' at 1. rewrite export_new_vertex, IH. reflexivity.
  - generalize (next_handle g + length (filter is_vertex (cells data))).
    pose proof export_new_edge as Hnew. fold m g' in Hnew.
    pose proof (fun e => names_vertices_terminals g data e plain) as Hnv.
    fold m in Hnv. unfold created_edges.
    assert (Hl : incl (cells data) (cells data)) by apply incl_refl.
    revert Hl. generalize (cells data) at 1 3 5.
    clearbody m g'.
    intros l. induction l as [|e l IH]; intros Hl n; [reflexivity|].
    assert (He : In e (cells data)) by (apply Hl; simpl; auto).
    assert (Hl' : incl l (cells data))
      by (intros a Ha; apply Hl; simpl; auto).
    cbn [flat_map filter].
    rewrite numbered_app, flat_map_app, (IH Hl').
    destruct (Hnv e He) as [H1 H2].
    destruct (names_vertices (cells data) e).
    + destruct (H1 eq_refl) as (hs & ht & E). rewrite E.
      rewrite numbered_cons.
      cbn [flat_map snd numbered length combine seq map app].
      rewrite (Hnew e hs ht E). reflexivity.
    + rewrite (H2 eq_refl). reflexivity.
Qed.

End AfterImport.

(** *** Counting *)

Lemma length_created_edges (g : mxGraph) (m : IdMap) (p : handle)
    (cs : list GraphCell) :
  length (created_edges g m p cs) = length (filter (connected g m) cs).
Proof.
  unfold created_edges, connected.
  induction cs as [|c cs IH]; [reflexivity|].
  cbn [flat_map filter]. rewrite length_app, IH.
  destruct (edge_terminals g m c) as [[s t]|]; reflexivity.
Qed.

Lemma connected_is_edge (g : mxGraph) (m : IdMap) (c : GraphCell) :
  connected g m c = true -> is_vertex c = false.
Proof.
  unfold connected, edge_terminals, is_vertex.
  destruct (type c); [discriminate | reflexivity].
Qed.

Lemma length_vertices_edges (g : mxGraph) (m : IdMap) (cs : list GraphCell) :
  length (filter is_vertex cs) + length (filter (connected g m) cs)
  <= length cs.
Proof.
  induction cs as [|c cs IH]; [reflexivity|].
  cbn [filter length].
  destruct (connected g m c) eqn:E.
  - rewrite (connected_is_edge g m c E). simpl. lia.
  - destruct (is_vertex c); simpl; lia.
Qed.

End FurtherGraph.

(** *** Properties of export, import and the callers *)

Section FurtherGraphProperties.
Context {J : JSNumber}.
Local Open Scope nat_scope.

Lemma exported_cell_fields (g : mxGraph) (cell : mxCell) (graphCell : GraphCell) :
  cellToJSON g (Some cell) = Some graphCell ->
  id graphCell = or_empty (getId cell) /\
  type graphCell = (if isEdge cell then edge else vertex) /\
  value graphCell = or_empty (getValue cell) /\
  style graphCell = parseStyle (or_empty (getStyle cell)) /\
  (isEdge cell = false ->
   source graphCell = None /\ target graphCell = None) /\
  source graphCell <> Some [] /\ target graphCell <> Some [] /\
  parent graphCell <> Some [].
Proof.
  unfold cellToJSON.
  destruct (negb (isEdge cell) && negb (isVertex cell)); [discriminate|].
  intros E. injection E as <-. cbn [id type value style source target parent].
  split; [reflexivity|]. split; [reflexivity|]. split; [reflexivity|].
  split; [reflexivity|]. split; [intros ->; auto|].
  split; [|split].
  - destruct (isEdge cell); [apply or_undefined_not_empty | discriminate].
  - destruct (isEdge cell); [apply or_undefined_not_empty | discriminate].
  - apply or_undefined_not_empty.
Qed.

Lemma exported_kind_cellToJSON (g : mxGraph) (c : handle * mxCell) :
  (exported_kind c = true /\
   exists graphCell, cellToJSON g (Some (snd c)) = Some graphCell) \/
  (exported_kind c = false /\ cellToJSON g (Some (snd c)) = None).
Proof.
  unfold exported_kind, cellToJSON.
  destruct (isEdge (snd c)), (isVertex (snd c)); simpl; eauto.
Qed.

(** X8.  Export lists one element for each root-level cell that is an
    edge or a vertex, in the order of the cells, and none for any other
    cell.  The element has the id, the label and the parsed style of its
    cell (empty where the cell has none); it is an edge whenever the
    cell says it is one; an element for a cell that is no edge has no
    source and no target, whatever the cell is connected to; and no
    source, target or parent of an element is the empty string. *)
Theorem exportGraphToJSON_elements (g : mxGraph) :
  Forall2
    (fun c graphCell =>
       id graphCell = or_empty (getId (snd c)) /\
       type graphCell = (if isEdge (snd c) then edge else vertex) /\
       value graphCell = or_empty (getValue (snd c)) /\
       style graphCell = parseStyle (or_empty (getStyle (snd c))) /\
       (isEdge (snd c) = false ->
        source graphCell = None /\ target graphCell = None) /\
       source graphCell <> Some [] /\ target graphCell <> Some [] /\
       parent graphCell <> Some [])
    (filter exported_kind (children g)) (cells (exportGraphToJSON g)).
Proof.
  rewrite exportGraphToJSON_cells.
  induction (children g) as [|c l IH]; [constructor|].
  cbn [filter flat_map].
  destruct (exported_kind_cellToJSON g c) as [[-> [gc E]] | [-> E]];
    rewrite E; [|exact IH].
  constructor; [|exact IH]. apply (exported_cell_fields g), E.
Qed.

(** X9.  What export returns after an import.  The cells that were there
    before (none after clearing) are exported as before.  Then comes one
    element for each vertex element of the Document, in their order:
    its id and label, its geometry with every falsy number replaced by
    zero, its style formatted and parsed back, no source or target, and
    the root as parent.  Then comes one element for each edge element
    whose source and target are not empty and name vertex elements, in
    their order: its id and label, a zero geometry, its style formatted
    and parsed back, its source and its target; no other edge element
    leaves anything.  The ids of the elements are distinct and not in
    use in the model; no vertex element is named [__proto__] and no edge
    element names an inherited member of [idMap]; the root of the live
    model is older than the next cell and, when the model is not
    cleared, its cells refer to cells older than the next one. *)
Theorem export_after_import (g : mxGraph) (data : GraphData)
    (clearExisting : bool) :
  root g < next_handle g ->
  (clearExisting = false -> model_closed g) ->
  fresh_ids g data clearExisting ->
  plain_terminals data ->
  cells (exportGraphToJSON (importGraphFromJSON g data clearExisting))
  = (if clearExisting then [] else cells (exportGraphToJSON g))
    ++ map (reexported_vertex g) (filter is_vertex (cells data))
    ++ map (reexported_edge g)
         (filter (names_vertices (cells data)) (cells data)).
Proof. intros Hr Hc _ Hp. apply export_after_import_cells; assumption. Qed.

Lemma exportGraphToJSON_importGraphFromJSON_viewport (g : mxGraph)
    (data : GraphData) (clearExisting : bool) :
  viewport (exportGraphToJSON (importGraphFromJSON g data clearExisting))
  = match viewport data with
    | Some vp => Some vp
    | None => viewport (exportGraphToJSON g)
    end.
Proof.
  unfold exportGraphToJSON. cbn [viewport].
  destruct (importGraphFromJSON_view g data clearExisting) as [-> ->].
  destruct (viewport data) as [[s t]|]; reflexivity.
Qed.

(** X10.  The viewport survives an import and an export, for a Document
    in which no vertex element is named [__proto__] and no edge element
    names an inherited member of [idMap] (so that pass 2 hands cells to
    [graph.insertEdge] and the import reaches its last step): export
    after the import returns the viewport of the Document when it has
    one, and the view as it was before the import when it has none. *)
Theorem viewport_roundtrip (g : mxGraph) (data : GraphData)
    (clearExisting : bool) :
  plain_terminals data ->
  viewport (exportGraphToJSON (importGraphFromJSON g data clearExisting))
  = match viewport data with
    | Some vp => Some vp
    | None => viewport (exportGraphToJSON g)
    end.
Proof. intros _. apply exportGraphToJSON_importGraphFromJSON_viewport. Qed.


Lemma removeCells_all_graph (g : mxGraph) :
  graph_removeCells g (map fst (children g)) = with_children g [] (next_handle g).
Proof.
  pose proof (removeCells_all g) as H. unfold graph_removeCells in *.
  cbn [children with_children] in H. rewrite H. reflexivity.
Qed.

(** X12.  Clearing and importing.  After [clear] the canvas exports no
    cell.  Clearing the canvas before [importGraphData] changes nothing.
    An import with clearing is [clear] followed by an import without
    clearing.  And importing the Document that [getGraphData] returns
    when there is no widget (no cells, no viewport) is [clear]. *)
Theorem clear_and_import :
  (forall graphRef, cells (getGraphData (clear graphRef)) = []) /\
  (forall graphRef data,
     importGraphData (clear graphRef) data = importGraphData graphRef data) /\
  (forall graphRef data,
     option_map (fun graph => importGraphFromJSON graph data false)
       (clear graphRef)
     = importGraphData graphRef data) /\
  (forall graphRef,
     importGraphData graphRef (getGraphData None) = clear graphRef).
Proof.
  split; [|split; [|split]].
  - intros [g|]; [|reflexivity].
    unfold clear, getGraphData. rewrite exportGraphToJSON_cells.
    rewrite removeCells_all_graph. reflexivity.
  - intros [g|] data; [|reflexivity].
    unfold clear, importGraphData, importGraphFromJSON. f_equal.
    rewrite !removeCells_all_graph. reflexivity.
  - intros [g|] data; [|reflexivity].
    unfold clear, importGraphData, importGraphFromJSON, option_map.
    reflexivity.
  - intros [g|]; [|reflexivity].
    unfold clear, importGraphData, importGraphFromJSON, getGraphData.
    f_equal.
Qed.

(** X13.  What an import does not read.  The [parent] of an element, the
    geometry of an edge element and the source and target of a vertex
    element have no effect: the import of a Document is the import of
    the Document with these fields blanked. *)
Theorem import_ignores_fields (g : mxGraph) (data : GraphData)
    (clearExisting : bool) :
  importGraphFromJSON g
    {| cells := map imported_fields (cells data);
       viewport := viewport data |} clearExisting
  = importGraphFromJSON g data clearExisting.
Proof.
  unfold importGraphFromJSON. cbn [cells viewport].
  rewrite (fold_left_map_same (import_vertex _))
    by (intros; apply import_vertex_fields).
  destruct (fold_left _ (cells data) _) as [g1 m].
  rewrite (fold_left_map_same (import_edge _ _))
    by (intros; apply import_edge_fields).
  reflexivity.
Qed.

Lemma filter_same {A : Type} (f f' : A -> bool) (l : list A) :
  (forall a, In a l -> f a = f' a) -> filter f l = filter f' l.
Proof.
  induction l as [|a l IH]; intros H; [reflexivity|].
  cbn [filter]. rewrite H by (simpl; auto).
  rewrite IH by (intros; apply H; simpl; auto). reflexivity.
Qed.

(** X14.  The number of cells after an import of a Document in which no
    vertex element is named [__proto__] and no edge element names an
    inherited member of [idMap]: the cells that were there (none after
    clearing), one vertex for every vertex element, also when ids are
    empty or repeated, and one edge for every edge element whose source
    and target are not empty and name vertex elements.  Such an import
    never creates more cells than the Document has elements. *)
Theorem import_cell_count (g : mxGraph) (data : GraphData)
    (clearExisting : bool) :
  plain_terminals data ->
  length (children (importGraphFromJSON g data clearExisting))
  = (if clearExisting then 0 else length (children g))
    + length (filter is_vertex (cells data))
    + length (filter (names_vertices (cells data)) (cells data)) /\
  length (children (importGraphFromJSON g data clearExisting))
  <= (if clearExisting then 0 else length (children g))
     + length (cells data).
Proof.
  intros Hplain.
  assert (E : length (children (importGraphFromJSON g data clearExisting))
              = (if clearExisting then 0 else length (children g))
                + length (filter is_vertex (cells data))
                + length (filter (names_vertices (cells data)) (cells data))).
  { rewrite importGraphFromJSON_children, !length_app, !length_numbered.
    rewrite length_map, length_created_edges.
    rewrite (filter_same (connected g _) (names_vertices (cells data)))
      by (intros; apply connected_names_vertices; assumption).
    destruct clearExisting; simpl; lia. }
  split; [exact E|]. rewrite E.
  pose proof (length_vertices_edges g
                (pass1_idMap (next_handle g) (cells data)) (cells data)) as H.
  rewrite (filter_same (connected g _) (names_vertices (cells data))) in H
    by (intros; apply connected_names_vertices; assumption).
  lia.
Qed.

Lemma flat_map_filter {A : Type} (f : A -> list A) (p : A -> bool)
    (l : list A) :
  (forall a, In a l -> f a = if p a then [a] else []) ->
  flat_map f l = filter p l.
Proof.
  induction l as [|a l IH]; intros H; [reflexivity|].
  cbn [flat_map filter]. rewrite H by (simpl; auto).
  rewrite IH by (intros; apply H; simpl; auto).
  destruct (p a); reflexivity.
Qed.

Lemma map_same {A : Type} (f : A -> A) (l : list A) :
  (forall a, In a l -> f a = a) -> map f l = l.
Proof.
  induction l as [|a l IH]; intros H; [reflexivity|].
  simpl. rewrite H by (simpl; auto). rewrite IH; [reflexivity|].
  intros. apply H. simpl. auto.
Qed.

(** X15.  The Documents that survive an import with clearing and an
    export without a change.  The Document lists its vertex elements
    before its edge elements and has a viewport; the ids of its elements
    are distinct and differ from the id of the root.  Every element has
    the id of the root as parent (none if that id is empty) and a style
    that formatting and parsing give back.  A vertex element has no
    source and no target, and no falsy number other than zero in its
    geometry.  An edge element has the zero geometry and names as source
    and as target, by a string that is not empty, vertex elements of the
    Document.  No vertex element is named [__proto__]. *)
Theorem import_export_roundtrip (g : mxGraph) (data : GraphData) :
  root g < next_handle g ->
  fresh_ids g data true ->
  (forall v, In v (cells data) -> type v = vertex -> id v <> js "__proto__") ->
  cells data = filter is_vertex (cells data) ++ filter is_edge (cells data) ->
  viewport data <> None ->
  (forall c, In c (cells data) ->
     parent c = or_undefined (root_id g) /\
     parseStyle (formatStyle (style c)) = style c) ->
  (forall v, In v (cells data) -> type v = vertex ->
     source v = None /\ target v = None /\
     exported_geometry (geometry v) = geometry v) ->
  (forall e, In e (cells data) -> type e = edge ->
     geometry e = zero_geometry /\
     exists a b,
       source e = Some a /\ target e = Some b /\ a <> [] /\ b <> [] /\
       (exists va, In va (cells data) /\ type va = vertex /\ id va = a) /\
       (exists vb, In vb (cells data) /\ type vb = vertex /\ id vb = b)) ->
  exportGraphToJSON (importGraphFromJSON g data true) = data.
Proof.
  intros Hroot _ Hproto Horder Hvp Hall Hvs Hes.
  assert (Hplain : plain_terminals data).
  { split; [exact Hproto|]. intros e k He Ht Hk. right.
    destruct (Hes e He Ht) as (_ & a & b & Hs & Htg & _ & _ & Hva & Hvb).
    destruct Hk as [Hk | Hk]; [rewrite Hs in Hk | rewrite Htg in Hk];
      injection Hk as <-; assumption. }
  assert (Ec : cells (exportGraphToJSON (importGraphFromJSON g data true))
               = cells data).
  { rewrite export_after_import_cells by (assumption || discriminate).
    cbn [app].
    transitivity (filter is_vertex (cells data) ++ filter is_edge (cells data));
      [|symmetry; exact Horder].
    f_equal.
    - apply map_same. intros v Hv. apply filter_In in Hv.
      destruct Hv as [Hv Ht]. apply is_vertex_true in Ht.
      destruct (Hall v Hv) as [Hp Hst].
      destruct (Hvs v Hv Ht) as (Hs & Htg & Hg).
      unfold reexported_vertex. destruct v.
      cbn [id type value geometry style source target parent] in *.
      congruence.
    - rewrite (filter_same (names_vertices (cells data)) is_edge).
      + apply map_same. intros e He. apply filter_In in He.
        destruct He as [He Ht]. apply is_edge_true in Ht.
        destruct (Hall e He) as [Hp Hst].
        destruct (Hes e He Ht) as (Hg & _).
        unfold reexported_edge. destruct e.
        cbn [id type value geometry style source target parent] in *.
        congruence.
      + intros e He. unfold is_edge. destruct (type e) eqn:Ht.
        * unfold names_vertices, is_edge. rewrite Ht. reflexivity.
        * destruct (Hes e He Ht)
            as (_ & a & b & Hs & Htg & Ha & Hb & Hva & Hvb).
          unfold names_vertices, is_edge, truthy_opt, or_empty.
          rewrite Ht, Hs, Htg.
          apply truthy_str_true in Ha, Hb. rewrite Ha, Hb.
          apply existsb_vertex_id in Hva, Hvb. rewrite Hva, Hvb.
          reflexivity. }
  assert (Ev : viewport (exportGraphToJSON (importGraphFromJSON g data true))
               = viewport data).
  { rewrite exportGraphToJSON_importGraphFromJSON_viewport.
    destruct (viewport data); [reflexivity | contradiction]. }
  destruct (exportGraphToJSON (importGraphFromJSON g data true)), data.
  simpl in Ec, Ev. rewrite Ec, Ev. reflexivity.
Qed.

(** *** The mock AI service *)

Lemma get_prop_first (k : jsstring) (v : jsval)
    (props : list (jsstring * jsval)) :
  get_prop (JObject ((k, v) :: props)) k = v.
Proof. unfold get_prop. cbn [find fst snd]. rewrite str_eqb_refl. reflexivity. Qed.

(** X16.  The mock service answers every request other than [null] and
    [undefined] (for these two the promise is never settled): the
    response carries the diagram of the request as it is, and
    [validateAIResponse] accepts it exactly when that diagram is truthy
    and its [cells] is an array: the description the mock writes is a
    string, so nothing else is tested. *)
Theorem callAIService_response :
  (callAIService JUndefined = None /\ callAIService JNull = None) /\
  forall request,
    request <> JUndefined -> request <> JNull ->
    exists response,
      callAIService request = Some response /\
      get_prop response (js "diagram") = get_prop request (js "diagram") /\
      truthy (validateAIResponse response)
      = truthy (get_prop request (js "diagram"))
        && is_array (get_prop (get_prop request (js "diagram")) (js "cells")).
Proof.
  split; [split; reflexivity|].
  intros request Hu Hn.
  exists (JObject
            [(js "diagram", get_prop request (js "diagram"));
             (js "description", JStr callAIService_description);
             (js "modifications",
              JArray (map JStr callAIService_modifications))]).
  split; [destruct request; try reflexivity; contradiction|].
  split; [apply get_prop_first|].
  unfold validateAIResponse. rewrite get_prop_first.
  cbn [truthy negb].
  destruct (truthy (get_prop request (js "diagram"))) eqn:Et; cbn [negb andb].
  - destruct (is_array (get_prop (get_prop request (js "diagram"))
                          (js "cells"))); reflexivity.
  - exact Et.
Qed.

(** *** Vertex elements that share an id *)

Lemma fold_idMap_set_other (l : list (handle * GraphCell)) (m : IdMap)
    (k : jsstring) :
  (forall hc, In hc l -> id (snd hc) <> k) ->
  idMap_cell (fold_left (fun m hc => idMap_set m (id (snd hc)) (fst hc)) l m) k
  = idMap_cell m k.
Proof.
  revert m. induction l as [|hc l IH]; intros m H; [reflexivity|].
  cbn [fold_left]. rewrite IH by (intros; apply H; simpl; auto).
  rewrite idMap_cell_set.
  assert (E : str_eqb k (id (snd hc)) = false).
  { apply str_eqb_neq. intros ->. apply (H hc); simpl; auto. }
  rewrite E. reflexivity.
Qed.

Lemma filter_is_vertex_app (l1 l2 : list GraphCell) (v : GraphCell) :
  type v = vertex ->
  filter is_vertex (l1 ++ v :: l2)
  = filter is_vertex l1 ++ v :: filter is_vertex l2.
Proof.
  intros Ht. rewrite filter_app. cbn [filter]. unfold is_vertex at 2.
  rewrite Ht. reflexivity.
Qed.

(** X17.  When several vertex elements share an id, the last one has it.
    Take a vertex element whose id no later vertex element shares, and
    the cell that [insertVertex] returns for it in pass 1.  After pass 1
    the id is read from [idMap] as this cell, whatever elements came
    before, and pass 2 hands this cell to [insertEdge], as source and as
    target, for an edge element that names the id (not empty) as its
    source and as its target. *)
Theorem last_vertex_of_an_id_wins (g : mxGraph) (l1 l2 : list GraphCell)
    (v : GraphCell) :
  type v = vertex ->
  (forall w, In w l2 -> type w = vertex -> id w <> id v) ->
  let parent := getDefaultParent g in
  let idMap :=
    snd (fold_left (import_vertex parent) (l1 ++ v :: l2) (g, idMap_empty)) in
  let cell :=
    snd (insertVertex
           (fst (fold_left (import_vertex parent) l1 (g, idMap_empty)))
           v parent) in
  forall graph,
    idMap_get graph idMap (id v) = Some (RCell cell) /\
    forall e,
      type e = edge -> source e = Some (id v) -> target e = Some (id v) ->
      id v <> [] ->
      edge_terminals graph idMap e = Some (RCell cell, RCell cell).
Proof.
  intros Ht Hl2 parent idMap cell graph.
  set (n := next_handle g).
  assert (Ecell : cell = n + length (filter is_vertex l1)).
  { unfold cell. rewrite pass1_fold. reflexivity. }
  assert (Emap : idMap = pass1_idMap n (l1 ++ v :: l2)).
  { unfold idMap. rewrite pass1_fold. reflexivity. }
  assert (Hn : numbered n (filter is_vertex (l1 ++ v :: l2))
               = numbered n (filter is_vertex l1)
                 ++ (n + length (filter is_vertex l1), v)
                    :: numbered (S (n + length (filter is_vertex l1)))
                         (filter is_vertex l2)).
  { rewrite filter_is_vertex_app by assumption.
    rewrite numbered_app, numbered_cons. reflexivity. }
  assert (Hget : idMap_get graph idMap (id v) = Some (RCell cell)).
  { rewrite Emap, Ecell.
    apply idMap_get_cell; [apply pass1_idMap_wf|].
    unfold pass1_idMap. rewrite Hn, fold_left_app. cbn [fold_left fst snd].
    rewrite fold_idMap_set_other.
    + rewrite idMap_cell_set, str_eqb_refl. reflexivity.
    + intros [h w] Hw. apply In_numbered in Hw. destruct Hw as [_ Hw].
      apply filter_In in Hw. destruct Hw as [Hw Hv].
      apply Hl2; [assumption | apply is_vertex_true, Hv]. }
  split; [exact Hget|].
  intros e Hte Hs Htg Hne. unfold edge_terminals.
  rewrite Hte, Hs, Htg. cbn [truthy_opt or_empty].
  apply truthy_str_true in Hne. rewrite Hne. cbn [andb].
  rewrite Hget. reflexivity.
Qed.

End FurtherGraphProperties.

(** *** The further properties on concrete inputs *)

(** X2, witness: the entry that [ a = 1 ] leaves. *)
Lemma parseStyle_entries_shape_witness :
  In (js "a", VNum (Number (js "1")))
     (parseStyle (J := IntegerNumber) (js " a = 1 ;b=x")) /\
  plain (js "a") = true /\ trim (js "a") = js "a" /\
  js "a" <> js "__proto__" /\
  parsed_value (J := IntegerNumber) (VNum (Number (js "1"))).
Proof.
  assert (H : In (js "a", VNum (Number (js "1")))
                (parseStyle (J := IntegerNumber) (js " a = 1 ;b=x")))
    by (vm_compute; auto).
  split; [exact H|].
  exact (proj2 (parseStyle_entries_shape (J := IntegerNumber) _) _ _ H).
Defined.

(** X3, witness: a second segment for the key [a], padded, appended to
    [a=1;b=2]. *)
Lemma parseStyle_last_segment_wins_witness :
  (plain (js " a ") = true /\ plain (js " x ") = true /\
   js " a " <> [] /\ js " x " <> [] /\ trim (js " a ") <> js "__proto__") /\
  In (js "a", VStr (js "x"))
     (parseStyle (J := IntegerNumber)
        (js "a=1;b=2" ++ js ";" ++ js " a " ++ js "=" ++ js " x ")) /\
  keys (parseStyle (J := IntegerNumber)
          (js "a=1;b=2" ++ js ";" ++ js " a " ++ js "=" ++ js " x "))
  = [js "a"; js "b"].
Proof.
  assert (H1 : plain (js " a ") = true) by reflexivity.
  assert (H2 : plain (js " x ") = true) by reflexivity.
  assert (H3 : js " a " <> []) by discriminate.
  assert (H4 : js " x " <> []) by discriminate.
  assert (H5 : trim (js " a ") <> js "__proto__")
    by (vm_compute; discriminate).
  split; [repeat split; assumption|].
  split; [|reflexivity].
  exact (proj1 (parseStyle_last_segment_wins (J := IntegerNumber)
                  (js "a=1;b=2") (js " a ") (js " x ") H1 H2 H3 H4 H5)).
Defined.

(** X4, witness: the part [ k = 1 =z]. *)
Lemma parse_part_ignores_padding_witness :
  (Forall (fun f => no_unit equals_sign f = true)
     [js " k "; js " 1 "; js "z"] /\
   trim (js " k ") <> [] /\ trim (js " 1 ") <> []) /\
  parse_part (J := IntegerNumber) []
    (join (js "=") [js " k "; js " 1 "; js "z"])
  = parse_part [] (join (js "=") [trim (js " k "); trim (js " 1 ")]).
Proof.
  assert (H1 : Forall (fun f => no_unit equals_sign f = true)
                 [js " k "; js " 1 "; js "z"]) by (repeat constructor).
  assert (H2 : trim (js " k ") <> []) by (vm_compute; discriminate).
  assert (H3 : trim (js " 1 ") <> []) by (vm_compute; discriminate).
  split; [repeat split; assumption|].
  exact (parse_part_ignores_padding (J := IntegerNumber) []
           (js " k ") (js " 1 ") [js "z"] H1 H2 H3).
Defined.

(** X5, witness: a mapping whose two values are [undefined] and [null]. *)
Lemma formatStyle_empty_iff_witness :
  formatStyle (J := IntegerNumber) [(js "a", VUndefined); (js "b", VNull)]
  = [].
Proof.
  apply (proj2 (formatStyle_empty_iff (J := IntegerNumber) _)).
  intros k v [E | [E | []]]; injection E as <- <-; reflexivity.
Defined.

(** X6, witness: a mapping with an array-index key that is not the
    first. *)
Lemma parseStyle_formatStyle_entries_witness :
  NoDup (keys (J := IntegerNumber)
           [(js "b", VBool true); (js "0", VNum (Number (js "7")));
            (js "c", VStr (js "x"))]) /\
  parseStyle (J := IntegerNumber)
    (formatStyle [(js "b", VBool true); (js "0", VNum (Number (js "7")));
                  (js "c", VStr (js "x"))])
  = [(js "0", VNum (Number (js "7"))); (js "b", VBool true);
     (js "c", VStr (js "x"))].
Proof.
  assert (H1 : NoDup (keys (J := IntegerNumber)
                        [(js "b", VBool true); (js "0", VNum (Number (js "7")));
                         (js "c", VStr (js "x"))])).
  { repeat constructor; vm_compute; intuition discriminate. }
  split; [exact H1|].
  refine (proj1 (parseStyle_formatStyle_entries (L := IntegerNumber_laws)
                   _ H1 _)).
  intros k v [E | [E | [E | []]]]; injection E as <- <-;
    repeat split; try (vm_compute; reflexivity); vm_compute; discriminate.
Defined.

(** X7, witness: a string with padding and an array-index key. *)
Lemma formatStyle_parseStyle_stable_witness :
  ~ In [] (keys (parseStyle (J := IntegerNumber) (js "b=1; 0 = x ;c=true"))) /\
  formatStyle (parseStyle (J := IntegerNumber)
                 (formatStyle (parseStyle (js "b=1; 0 = x ;c=true"))))
  = js "0=x;b=1;c=true".
Proof.
  assert (H : ~ In [] (keys (parseStyle (J := IntegerNumber)
                               (js "b=1; 0 = x ;c=true")))).
  { vm_compute. intuition discriminate. }
  split; [exact H|].
  exact (formatStyle_parseStyle_stable (L := IntegerNumber_laws) _ H).
Defined.

Lemma sample_document_plain :
  plain_terminals (J := IntegerNumber) sample_document.
Proof.
  split.
  - intros v [<- | [<- | [<- | [<- | []]]]] _; vm_compute; discriminate.
  - intros e k [<- | [<- | [<- | [<- | []]]]] Ht [E | E];
      try discriminate Ht; injection E as <-; left; reflexivity.
Qed.

Lemma sample_document_fresh (clearExisting : bool) :
  fresh_ids (J := IntegerNumber) (model_with_vertex (js "v0"))
    sample_document clearExisting.
Proof.
  split; [|split].
  - repeat constructor; vm_compute; intuition discriminate.
  - intros c [<- | [<- | [<- | [<- | []]]]]; vm_compute; discriminate.
  - intros _ c c' [<- | [<- | [<- | [<- | []]]]] [<- | []];
      vm_compute; discriminate.
Qed.

Lemma model_with_vertex_closed (i : jsstring) :
  model_closed (J := IntegerNumber) (model_with_vertex i).
Proof.
  intros c [<- | []]. split; [repeat constructor|].
  intros h [<- | []]. repeat constructor.
Qed.

(** X9, witness: [sample_document] imported beside the vertex of a live
    model; the edge to [zz] leaves nothing. *)
Lemma export_after_import_witness :
  ((root (J := IntegerNumber) (model_with_vertex (js "v0"))
    < next_handle (model_with_vertex (js "v0")))%nat /\
   model_closed (J := IntegerNumber) (model_with_vertex (js "v0")) /\
   fresh_ids (J := IntegerNumber) (model_with_vertex (js "v0"))
     sample_document false /\
   plain_terminals (J := IntegerNumber) sample_document) /\
  map (fun c => (id c, source c, target c))
    (cells (exportGraphToJSON
              (importGraphFromJSON (J := IntegerNumber)
                 (model_with_vertex (js "v0")) sample_document false)))
  = [(js "v0", None, None); (js "a", None, None); (js "b", None, None);
     (js "e1", Some (js "a"), Some (js "b"))].
Proof.
  assert (H1 : (root (J := IntegerNumber) (model_with_vertex (js "v0"))
                < next_handle (model_with_vertex (js "v0")))%nat)
    by (repeat constructor).
  split.
  { split; [exact H1|]. split; [apply model_with_vertex_closed|].
    split; [apply sample_document_fresh | apply sample_document_plain]. }
  rewrite (export_after_import (J := IntegerNumber)
             (model_with_vertex (js "v0")) sample_document false H1
             (fun _ => model_with_vertex_closed (js "v0"))
             (sample_document_fresh false) sample_document_plain).
  reflexivity.
Defined.

(** X10, witness: the viewport of [sample_document]. *)
Lemma viewport_roundtrip_witness :
  plain_terminals (J := IntegerNumber) sample_document /\
  viewport (exportGraphToJSON
              (importGraphFromJSON (J := IntegerNumber) empty_model
                 sample_document true))
  = Some {| scale := Some 2%N; translate := (Some 3%N, Some 4%N) |}.
Proof.
  split; [apply sample_document_plain|].
  exact (viewport_roundtrip (J := IntegerNumber) empty_model sample_document
           true sample_document_plain).
Defined.

(** X14, witness: [sample_document] leaves two vertices and one edge
    beside the vertex that was there. *)
Lemma import_cell_count_witness :
  plain_terminals (J := IntegerNumber) sample_document /\
  length (children (importGraphFromJSON (J := IntegerNumber)
                      (model_with_vertex (js "v0")) sample_document false))
  = 4%nat.
Proof.
  split; [apply sample_document_plain|].
  exact (proj1 (import_cell_count (J := IntegerNumber)
                  (model_with_vertex (js "v0")) sample_document false
                  sample_document_plain)).
Defined.

Lemma normal_document_ids :
  forall v, In v (cells (J := IntegerNumber) normal_document) ->
            type v = vertex -> id v <> js "__proto__".
Proof.
  intros v [<- | [<- | [<- | []]]] _; vm_compute; discriminate.
Qed.

Lemma normal_document_fresh :
  fresh_ids (J := IntegerNumber) empty_model normal_document true.
Proof.
  split; [|split].
  - repeat constructor; vm_compute; intuition discriminate.
  - intros c [<- | [<- | [<- | []]]]; vm_compute; discriminate.
  - discriminate.
Qed.

(** X15, witness: [normal_document] comes back from [empty_model] as it
    went in. *)
Lemma import_export_roundtrip_witness :
  exportGraphToJSON
    (importGraphFromJSON (J := IntegerNumber) empty_model normal_document true)
  = normal_document.
Proof.
  apply (import_export_roundtrip (J := IntegerNumber)).
  - repeat constructor.
  - apply normal_document_fresh.
  - apply normal_document_ids.
  - reflexivity.
  - discriminate.
  - intros c [<- | [<- | [<- | []]]]; split; reflexivity.
  - intros v [<- | [<- | [<- | []]]] Ht;
      try discriminate Ht; repeat split; reflexivity.
  - intros e [<- | [<- | [<- | []]]] Ht; try discriminate Ht.
    split; [reflexivity|]. exists (js "a"), (js "b").
    split; [reflexivity|]. split; [reflexivity|].
    split; [discriminate|]. split; [discriminate|]. split.
    + eexists. split; [left; reflexivity|]. split; reflexivity.
    + eexists. split; [right; left; reflexivity|]. split; reflexivity.
Defined.

(** X16, witness: a request with a diagram whose [cells] is an array;
    the response is accepted. *)
Lemma callAIService_response_witness :
  exists response,
    callAIService (J := IntegerNumber)
      (JObject [(js "diagram", JObject [(js "cells", JArray [])]);
                (js "prompt", JStr (js "p"))])
    = Some response /\
    truthy (validateAIResponse response) = true.
Proof.
  destruct (proj2 (callAIService_response (J := IntegerNumber))
              (JObject [(js "diagram", JObject [(js "cells", JArray [])]);
                        (js "prompt", JStr (js "p"))]))
    as (response & E & _ & Hv); [discriminate | discriminate |].
  exists response. split; [exact E | exact Hv].
Defined.

(** X17, witness: two elements named [a] before an edge from [a] to
    [a]; the edge is connected to the cell of the second. *)
Lemma last_vertex_of_an_id_wins_witness :
  edge_terminals (J := IntegerNumber) empty_model
    (snd (fold_left (import_vertex (getDefaultParent empty_model))
            ([labelled_vertex (js "a") (js "first")]
             ++ labelled_vertex (js "a") (js "second")
                :: [edge_between (js "e1") (js "a") (js "a")])
            (empty_model, idMap_empty)))
    (edge_between (js "e1") (js "a") (js "a"))
  = Some (RCell 2%nat, RCell 2%nat).
Proof.
  refine (proj2 (last_vertex_of_an_id_wins (J := IntegerNumber) empty_model
                   [labelled_vertex (js "a") (js "first")]
                   [edge_between (js "e1") (js "a") (js "a")]
                   (labelled_vertex (js "a") (js "second"))
                   eq_refl _ empty_model)
            (edge_between (js "e1") (js "a") (js "a"))
            eq_refl eq_refl eq_refl _).
  - intros w [<- | []] Ht. discriminate Ht.
  - discriminate.
Defined.
